(** * Resilience and estimation core of the Wormhole data-provider plugin

    A shallow embedding of the TypeScript sources

    - [utils/circuit-breaker.ts]  (class [CircuitBreaker]),
    - [utils/http.ts]             (class [RateLimiter], [fetchWithRetry]),
    - the service file            (class [DataProviderService]: cache,
      liquidity-depth search, rate arithmetic, rate fallback),

    followed by the properties established about them.

    Conventions.  JavaScript numbers that hold millisecond clocks, counters
    and thresholds are integers and are modelled by [Z]; [bigint] values are
    [Z] with [Z.quot] for the truncating [/]; the two places where the code
    really computes in binary64 ([calculateEffectiveRate], [calculateFeeUsd])
    use the IEEE-754 model of [SpecFloat] at precision 53.  [Date.now()] is an
    explicit argument of every operation that reads the clock.  An awaited
    operation is a function whose result says whether the promise resolved
    or rejected. *)

From Stdlib Require Import ZArith Lia Bool List Ascii String.
From Stdlib Require Import Floats.SpecFloat.
From stdpp Require Import base option list gmap strings sorting.

Local Open Scope Z_scope.

(** ** utils/circuit-breaker.ts *)

Module CircuitBreaker.

Inductive CircuitState := CLOSED | OPEN | HALF_OPEN.

Record CircuitBreakerConfig := {
  failureThreshold : Z;   (* Open circuit after N failures *)
  successThreshold : Z;   (* Close circuit after N successes *)
  timeout : Z;            (* Time before trying half-open (ms) *)
  resetTimeout : Z        (* Time before resetting failure count (ms) *)
}.

(** The default argument of the constructor. *)
Definition defaultConfig : CircuitBreakerConfig :=
  {| failureThreshold := 5; successThreshold := 2;
     timeout := 60000; resetTimeout := 300000 |}.

(** The private fields of the class. *)
Record breaker := {
  state : CircuitState;
  failureCount : Z;
  successCount : Z;
  lastFailureTime : Z;
  lastResetTime : Z
}.

(** Field initialisers; [now] is the [Date.now()] read by the
    initialiser of [lastResetTime]. *)
Definition create (now : Z) : breaker :=
  {| state := CLOSED; failureCount := 0; successCount := 0;
     lastFailureTime := 0; lastResetTime := now |}.

Definition CircuitState_eqb (a b : CircuitState) : bool :=
  match a, b with
  | CLOSED, CLOSED | OPEN, OPEN | HALF_OPEN, HALF_OPEN => true
  | _, _ => false
  end.

(** How the awaited [fn()] settles, and how [execute] settles. *)
Inductive outcome (T E : Type) := Resolved (v : T) | Rejected (e : E).
Inductive result (T E : Type) :=
  | Return (v : T)          (* the operation's value *)
  | Rethrow (e : E)         (* the operation's own error, re-thrown *)
  | CircuitOpenError.       (* Error("Circuit breaker is OPEN - service unavailable") *)
Arguments Resolved {T E} v.
Arguments Rejected {T E} e.
Arguments Return {T E} v.
Arguments Rethrow {T E} e.
Arguments CircuitOpenError {T E}.

(** [execute], lines 32-36: "Reset failure count periodically". *)
Definition periodicReset (cfg : CircuitBreakerConfig) (now : Z) (b : breaker) : breaker :=
  if now - lastResetTime b >? resetTimeout cfg
  then {| state := state b; failureCount := 0; successCount := successCount b;
          lastFailureTime := lastFailureTime b; lastResetTime := now |}
  else b.

(** [execute], lines 38-46: "Check circuit state".  [None] is the [throw]. *)
Definition checkState (cfg : CircuitBreakerConfig) (now : Z) (b : breaker) : option breaker :=
  match state b with
  | OPEN =>
      if now - lastFailureTime b >? timeout cfg
      then Some {| state := HALF_OPEN; failureCount := failureCount b; successCount := 0;
                   lastFailureTime := lastFailureTime b; lastResetTime := lastResetTime b |}
      else None
  | _ => Some b
  end.

Definition onSuccess (cfg : CircuitBreakerConfig) (b : breaker) : breaker :=
  let b1 := {| state := state b; failureCount := 0; successCount := successCount b;
               lastFailureTime := lastFailureTime b; lastResetTime := lastResetTime b |} in
  match state b1 with
  | HALF_OPEN =>
      let sc := successCount b1 + 1 in
      if sc >=? successThreshold cfg
      then {| state := CLOSED; failureCount := 0; successCount := 0;
              lastFailureTime := lastFailureTime b1; lastResetTime := lastResetTime b1 |}
      else {| state := HALF_OPEN; failureCount := 0; successCount := sc;
              lastFailureTime := lastFailureTime b1; lastResetTime := lastResetTime b1 |}
  | _ => b1
  end.

Definition onFailure (cfg : CircuitBreakerConfig) (now : Z) (b : breaker) : breaker :=
  let fc := failureCount b + 1 in
  {| state := if fc >=? failureThreshold cfg then OPEN else state b;
     failureCount := fc; successCount := successCount b;
     lastFailureTime := now; lastResetTime := lastResetTime b |}.

(** The part of [execute] that runs before [fn] is called: the breaker as
    [fn] finds it, or [None] when [execute] throws without calling [fn].
    [now] is the clock on entry. *)
Definition precheck (cfg : CircuitBreakerConfig) (now : Z) (b : breaker) : option breaker :=
  checkState cfg now (periodicReset cfg now b).

(** [execute].  [fn] may look at the breaker through [getState()], so it
    receives the state it is called in; [doneAt] is the clock when the
    awaited promise settles (read by [onFailure]).  When [execute] throws the
    circuit-open error the breaker keeps the effect of the periodic
    reset. *)
Definition execute {T E : Type} (cfg : CircuitBreakerConfig) (now : Z)
    (fn : CircuitState -> outcome T E) (doneAt : Z) (b : breaker)
    : breaker * result T E :=
  match precheck cfg now b with
  | None => (periodicReset cfg now b, CircuitOpenError)
  | Some b1 =>
      match fn (state b1) with
      | Resolved v => (onSuccess cfg b1, Return v)
      | Rejected e => (onFailure cfg doneAt b1, Rethrow e)
      end
  end.

Definition getState (b : breaker) : CircuitState := state b.

Definition reset (b : breaker) : breaker :=
  {| state := CLOSED; failureCount := 0; successCount := 0;
     lastFailureTime := 0; lastResetTime := lastResetTime b |}.

(** States a breaker can be in: constructed at some time, then used
    through its public methods with a clock that never runs backwards. *)
Inductive reachable (cfg : CircuitBreakerConfig) : Z -> breaker -> Prop :=
  | reach_create (t0 : Z) : reachable cfg t0 (create t0)
  | reach_execute (t now doneAt : Z) (b : breaker) (fn : CircuitState -> outcome unit unit) :
      reachable cfg t b -> t <= now -> now <= doneAt ->
      reachable cfg doneAt (fst (execute cfg now fn doneAt b))
  | reach_reset (t : Z) (b : breaker) :
      reachable cfg t b -> reachable cfg t (reset b).

(** A scripted call of [execute]: entry time, how the operation settles
    ([true] for success), and the settle time. *)
Definition scripted (ok : bool) : CircuitState -> outcome unit unit :=
  fun _ => if ok then Resolved tt else Rejected tt.

Fixpoint replay (cfg : CircuitBreakerConfig) (b : breaker) (calls : list (Z * bool * Z))
    : breaker :=
  match calls with
  | [] => b
  | (now, ok, doneAt) :: rest =>
      replay cfg (fst (execute cfg now (scripted ok) doneAt b)) rest
  end.

Fixpoint inOrder (t : Z) (calls : list (Z * bool * Z)) : Prop :=
  match calls with
  | [] => True
  | (now, _, doneAt) :: rest => t <= now /\ now <= doneAt /\ inOrder doneAt rest
  end.

Definition endOf (t : Z) (calls : list (Z * bool * Z)) : Z :=
  fold_left (fun _ c => snd c) calls t.

(** Five failures trip a default breaker created at time 0 ... *)
Definition trippingCalls : list (Z * bool * Z) :=
  [(1, false, 1); (2, false, 2); (3, false, 3); (4, false, 4); (5, false, 5)].

(** ... and a successful probe after the open timeout leaves it half open
    with a cleared failure counter. *)
Definition probingCalls : list (Z * bool * Z) :=
  trippingCalls ++ [(70000, true, 70001)].

(** A run of calls whose operations all settle the same way, given by
    their entry and settle times. *)
Definition uniformCalls (ok : bool) (times : list (Z * Z)) : list (Z * bool * Z) :=
  (fun t => (fst t, ok, snd t)) <$> times.

End CircuitBreaker.

(** ** utils/http.ts: the rate limiter *)

Module RateLimiter.

Record RateLimitInfo := { limit : Z; remaining : Z; reset : Z }.

(** The two [readonly] constructor parameters. *)
Record config := { maxRequests : Z; windowMs : Z }.

(** The private fields.  A queued [resolve] callback is represented by the
    identity of the caller whose [acquire()] promise it settles. *)
Record limiter := {
  queue : list nat;
  processing : bool;
  requestCount : Z;
  windowStart : Z;
  lastRateLimitInfo : option RateLimitInfo
}.

(** Field initialisers; [now] is the [Date.now()] of [windowStart]. *)
Definition create (now : Z) : limiter :=
  {| queue := []; processing := false; requestCount := 0;
     windowStart := now; lastRateLimitInfo := None |}.

(** What one run of [process] did, besides changing the fields. *)
Record processed := {
  after : limiter;
  windowReset : bool;        (* the "Reset window if expired" branch ran *)
  admitted : option nat;     (* the caller whose [resolve()] was called *)
  rescheduled : bool         (* [setTimeout(() => this.process(), delay)] was issued *)
}.

Definition queueIsEmpty (l : limiter) : bool :=
  match queue l with [] => true | _ :: _ => false end.

(** [process], with [now] the value of [Date.now()]. *)
Definition process (cfg : config) (now : Z) (l : limiter) : processed :=
  if processing l && queueIsEmpty l
  then {| after := l; windowReset := false; admitted := None; rescheduled := false |}
  else
    let expired := now - windowStart l >=? windowMs cfg in
    let count0 := if expired then 0 else requestCount l in
    let start0 := if expired then now else windowStart l in
    let '(q1, count1, adm) :=
      match queue l with
      | r :: rest =>
          if count0 <? maxRequests cfg
          then (rest, count0 + 1, Some r)
          else (queue l, count0, None)
      | [] => ([], count0, None)
      end in
    let again := match q1 with [] => false | _ :: _ => true end in
    {| after := {| queue := q1; processing := again; requestCount := count1;
                   windowStart := start0; lastRateLimitInfo := lastRateLimitInfo l |};
       windowReset := expired; admitted := adm; rescheduled := again |}.

(** [acquire]: push the resolver, then [process]. *)
Definition acquire (cfg : config) (now : Z) (who : nat) (l : limiter) : processed :=
  process cfg now
    {| queue := queue l ++ [who]; processing := processing l;
       requestCount := requestCount l; windowStart := windowStart l;
       lastRateLimitInfo := lastRateLimitInfo l |}.

(** [updateRateLimitInfo].  [info.remaining < maxRequests / 2] is compared
    after doubling; [windowMs / 2] is exact for an even window such as the
    service's 1000 ms. *)
Definition updateRateLimitInfo (cfg : config) (now : Z) (info : RateLimitInfo)
    (l : limiter) : limiter :=
  {| queue := queue l; processing := processing l; requestCount := requestCount l;
     windowStart := if 2 * remaining info <? maxRequests cfg
                    then now - windowMs cfg / 2 else windowStart l;
     lastRateLimitInfo := Some info |}.

(** Everything that can happen to a limiter: a caller acquires, a timer
    set by [process] fires, the requester reports server headers.  A timer
    may fire at any time, which covers every delay [setTimeout] is given. *)
Inductive call :=
  | Acquire (who : nat)
  | TimerFired
  | ServerInfo (info : RateLimitInfo).

(** What an outside observer sees. *)
Inductive observation :=
  | WindowReset
  | Admission (who : nat).

Definition observe (now : Z) (p : processed) : list (Z * observation) :=
  (if windowReset p then [(now, WindowReset)] else []) ++
  (match admitted p with Some who => [(now, Admission who)] | None => [] end).

Definition step (cfg : config) (l : limiter) (ev : Z * call)
    : limiter * list (Z * observation) :=
  let '(now, c) := ev in
  match c with
  | Acquire who => let p := acquire cfg now who l in (after p, observe now p)
  | TimerFired => let p := process cfg now l in (after p, observe now p)
  | ServerInfo info => (updateRateLimitInfo cfg now info l, [])
  end.

(** Run a timed trace, collecting the observations in order. *)
Fixpoint run (cfg : config) (l : limiter) (trace : list (Z * call))
    : limiter * list (Z * observation) :=
  match trace with
  | [] => (l, [])
  | ev :: rest =>
      let '(l1, obs1) := step cfg l ev in
      let '(l2, obs2) := run cfg l1 rest in
      (l2, obs1 ++ obs2)
  end.

Definition isAdmission (o : Z * observation) : bool :=
  match snd o with Admission _ => true | WindowReset => false end.

Definition isReset (o : Z * observation) : bool :=
  match snd o with WindowReset => true | Admission _ => false end.

(** Number of admissions in a log. *)
Definition admissions (log : list (Z * observation)) : Z :=
  Z.of_nat (length (filter (fun o => isAdmission o = true) log)).

(** Number of admissions whose time lies in [[from, from + len)]. *)
Definition admissionsWithin (from len : Z) (log : list (Z * observation)) : Z :=
  admissions (filter (fun o => from <= fst o < from + len) log).

(** A clock that starts at [t0] and never runs backwards. *)
Fixpoint clockOk (t0 : Z) (trace : list (Z * call)) : Prop :=
  match trace with
  | [] => True
  | (t, _) :: rest => t0 <= t /\ clockOk t rest
  end.

(** The property of section 8 of the specification: no sliding interval
    of length [windowMs] sees more than [maxRequests] admissions. *)
Definition slidingWindowBound (cfg : config) (t0 : Z) (trace : list (Z * call)) : Prop :=
  forall from : Z,
    admissionsWithin from (windowMs cfg) (snd (run cfg (create t0) trace))
      <= maxRequests cfg.

(** The request counter as an observer reconstructs it from a log,
    starting from the value [c]. *)
Fixpoint countSinceReset (c : Z) (log : list (Z * observation)) : Z :=
  match log with
  | [] => c
  | (_, WindowReset) :: rest => countSinceReset 0 rest
  | (_, Admission _) :: rest => countSinceReset (c + 1) rest
  end.

(** Every admission of the log happens with the reconstructed counter
    below [maxRequests]. *)
Fixpoint withinLimit (cfg : config) (c : Z) (log : list (Z * observation)) : Prop :=
  match log with
  | [] => True
  | (_, WindowReset) :: rest => withinLimit cfg 0 rest
  | (_, Admission _) :: rest => c < maxRequests cfg /\ withinLimit cfg (c + 1) rest
  end.

(** A stretch of the log in which no window reset happens. *)
Definition resetFree (log : list (Z * observation)) : Prop :=
  Forall (fun o => isReset o = false) log.

(** A trace of [acquire()] calls and timer callbacks only. *)
Definition callsOnly (trace : list (Z * call)) : Prop :=
  Forall (fun ev => match snd ev with ServerInfo _ => False | _ => True end) trace.

(** What the fields say about the admissions seen so far in the interval
    [[from, from + windowMs)]: none while the accounting window ends before
    the interval, at most the counter while the window covers [from], at
    most [maxRequests] more once a window has started inside the interval. *)
Definition slidingInv (cfg : config) (from now : Z) (l : limiter) (seen : Z) : Prop :=
  windowStart l <= now /\
  0 <= requestCount l <= maxRequests cfg /\
  0 <= seen /\
  (windowStart l + windowMs cfg <= from -> seen = 0) /\
  (windowStart l <= from < windowStart l + windowMs cfg -> seen <= requestCount l) /\
  (from < windowStart l < from + windowMs cfg -> seen <= maxRequests cfg + requestCount l) /\
  (from + windowMs cfg <= windowStart l -> seen <= 2 * maxRequests cfg).

(** The time of the last event of a trace. *)
Definition lastTime (t0 : Z) (trace : list (Z * call)) : Z :=
  fold_left (fun _ ev => fst ev) trace t0.

(** One request per second; the limiter is created at time 0, one caller
    acquires at 999 ms and another at 1000 ms. *)
Definition onePerSecond : config := {| maxRequests := 1; windowMs := 1000 |}.
Definition acrossTheBoundary : list (Z * call) := [(999, Acquire 0%nat); (1000, Acquire 1%nat)].

(** The callers of a trace, in the order of their [acquire()] calls. *)
Definition acquirers (trace : list (Z * call)) : list nat :=
  omap (fun ev => match snd ev with Acquire who => Some who | _ => None end) trace.

(** The callers whose promise was resolved, in the order of resolution. *)
Definition admittedCallers (log : list (Z * observation)) : list nat :=
  omap (fun o => match snd o with Admission who => Some who | WindowReset => None end) log.

End RateLimiter.

(** ** utils/http.ts: the retrying requester *)

Module Http.

Record RetryConfig := { maxRetries : Z; baseDelayMs : Z; maxDelayMs : Z }.

(** The default value of the [retryConfig] parameter. *)
Definition defaultRetryConfig : RetryConfig :=
  {| maxRetries := 3; baseDelayMs := 1000; maxDelayMs := 10000 |}.

(** What the code reads from a [Response].  [retryAfter] is the value of
    [parseInt(headers.get("Retry-After") || "60")], [None] standing for
    [NaN]; [rateLimit] is the result of [parseRateLimitHeaders]. *)
Record Response (B : Type) := {
  status : Z;
  retryAfter : option Z;
  rateLimit : option RateLimiter.RateLimitInfo;
  body : B
}.
Arguments status {B} _.
Arguments retryAfter {B} _.
Arguments rateLimit {B} _.
Arguments body {B} _.

(** [response.ok]: a status in the range 200-299. *)
Definition ok {B} (r : Response B) : bool := (200 <=? status r) && (status r <=? 299).

(** One call of [fetch]: a response, or a rejection with an [Error] of the
    given message (connection failure, abort by the 30 s timer, ...). *)
Inductive FetchOutcome (B : Type) :=
  | Responded (r : Response B)
  | Thrown (message : string).
Arguments Responded {B} r.
Arguments Thrown {B} message.

(** Decimal rendering of an integer inside a template literal. *)
Definition digitChar (d : Z) : Ascii.ascii :=
  Ascii.ascii_of_nat (48 + Z.to_nat d).

Fixpoint showDigits (fuel : nat) (n : Z) (acc : string) : string :=
  match fuel with
  | O => acc
  | S fuel' =>
      let acc' := String (digitChar (n mod 10)) acc in
      if n <? 10 then acc' else showDigits fuel' (n / 10) acc'
  end.

Definition showInt (n : Z) : string :=
  let digits := showDigits (S (Z.to_nat (Z.log2 (Z.abs n)))) (Z.abs n) EmptyString in
  if n <? 0 then String "-"%char digits else digits.

Definition showNumber (n : option Z) : string :=
  match n with Some z => showInt z | None => "NaN"%string end.

(** [message.includes(needle)]. *)
Definition includes (needle message : string) : bool :=
  match String.index 0 needle message with Some _ => true | None => false end.

Definition digitOf (c : Ascii.ascii) : option Z :=
  let n := Z.of_nat (Ascii.nat_of_ascii c) in
  if (48 <=? n) && (n <=? 57) then Some (n - 48) else None.

(** Value of the run of digits a string starts with. *)
Fixpoint leadingDigits (acc : Z) (s : string) : Z :=
  match s with
  | String c rest =>
      match digitOf c with
      | Some d => leadingDigits (10 * acc + d) rest
      | None => acc
      end
  | EmptyString => acc
  end.

(** [parseInt(message.match(/\d+/)?.[0] || "60")]. *)
Fixpoint firstNumber (s : string) : Z :=
  match s with
  | EmptyString => 60
  | String c rest =>
      match digitOf c with
      | Some _ => leadingDigits 0 s
      | None => firstNumber rest
      end
  end.

(** The body of the [try] block after [fetch] settled: the response that
    is returned, or the message of the [Error] that reaches [catch]. *)
Definition classify {B} (o : FetchOutcome B) : Response B + string :=
  match o with
  | Thrown message => inr message
  | Responded r =>
      if status r =? 429
      then inr ("Rate limited: retry after " +:+ showNumber (retryAfter r) +:+ "s")%string
      else if negb (ok r) && (status r >=? 500)
      then inr ("Server error: " +:+ showInt (status r))%string
      else inl r
  end.

(** The delay computed in the [catch] block. *)
Definition retryDelay (cfg : RetryConfig) (attempt : Z) (message : string) : Z :=
  if includes "Rate limited" message
  then firstNumber message * 1000
  else Z.min (baseDelayMs cfg * 2 ^ attempt) (maxDelayMs cfg).

(** What a call of [fetchWithRetry] did. *)
Record Run (B : Type) := {
  settled : Response B + string;   (* returned response, or message of the thrown error *)
  attemptsMade : nat;              (* calls of [fetch] *)
  slept : list Z;                  (* delays awaited, in order *)
  reported : list RateLimiter.RateLimitInfo   (* calls of [updateRateLimitInfo] *)
}.
Arguments settled {B} _.
Arguments attemptsMade {B} _.
Arguments slept {B} _.
Arguments reported {B} _.

Definition reportOf {B} (hasLimiter : bool) (o : FetchOutcome B)
    : list RateLimiter.RateLimitInfo :=
  match o with
  | Responded r =>
      if hasLimiter then match rateLimit r with Some i => [i] | None => [] end else []
  | Thrown _ => []
  end.

(** The [for] loop, by recursion on the number of iterations left;
    [fetch attempt] is what the network does on that attempt. *)
Fixpoint attemptsFrom {B} (cfg : RetryConfig) (hasLimiter : bool)
    (fetch : Z -> FetchOutcome B)
    (remaining : nat) (attempt : Z) (lastError : option string) : Run B :=
  match remaining with
  | O =>
      {| settled := inr (default "Request failed"%string lastError);
         attemptsMade := 0; slept := []; reported := [] |}
  | S remaining' =>
      let o := fetch attempt in
      match classify o with
      | inl r =>
          {| settled := inl r; attemptsMade := 1; slept := [];
             reported := reportOf hasLimiter o |}
      | inr message =>
          let rest := attemptsFrom cfg hasLimiter fetch remaining'
                        (attempt + 1) (Some message) in
          {| settled := settled rest;
             attemptsMade := S (attemptsMade rest);
             slept := (if attempt <? maxRetries cfg
                       then [retryDelay cfg attempt message] else []) ++ slept rest;
             reported := reportOf hasLimiter o ++ reported rest |}
      end
  end.

(** [fetchWithRetry]: attempts [0 .. maxRetries]. *)
Definition fetchWithRetry {B} (cfg : RetryConfig) (hasLimiter : bool)
    (fetch : Z -> FetchOutcome B) : Run B :=
  attemptsFrom cfg hasLimiter fetch (Z.to_nat (maxRetries cfg + 1)) 0 None.

(** An attempt fails when it ends in the [catch] block. *)
Definition attemptFails {B} (o : FetchOutcome B) : bool :=
  match classify o with inl _ => false | inr _ => true end.

Definition errorOf {B} (o : FetchOutcome B) : string :=
  match classify o with inl _ => EmptyString | inr message => message end.

(** A response with the given status and no headers of interest. *)
Definition plain {B} (st : Z) (b : B) : Response B :=
  {| status := st; retryAfter := Some 60; rateLimit := None; body := b |}.

(** The outcomes the [try] block turns into an error: a rejected [fetch],
    a 429, a status of 500 or more. *)
Definition retryable {B} (o : FetchOutcome B) : Prop :=
  match o with
  | Thrown _ => True
  | Responded r => status r = 429 \/ 500 <= status r
  end.

(** The delays awaited when every attempt fails: one after each attempt
    but the last. *)
Definition delaysOf {B} (cfg : RetryConfig) (fetch : Z -> FetchOutcome B)
    (first count : Z) : list Z :=
  a ← seqZ first count;
  if a <? maxRetries cfg then [retryDelay cfg a (errorOf (fetch a))] else [].

(** Scripted networks: a constant status, and 500 twice before a 200. *)
Definition always (st : Z) : Z -> FetchOutcome unit :=
  fun _ => Responded (plain st tt).
Definition twiceThenOk : Z -> FetchOutcome unit :=
  fun attempt => if attempt <? 2 then Responded (plain 500 tt) else Responded (plain 200 tt).

(** Whether a character occurs in a string. *)
Fixpoint occurs (c : Ascii.ascii) (s : string) : bool :=
  match s with
  | EmptyString => false
  | String c' rest => if Ascii.eqb c c' then true else occurs c rest
  end.

End Http.

(** ** The service: cache, liquidity search, rate arithmetic, rates *)

Module Service.

(** *** Assets and routes (the fields the service reads) *)

Record Asset := {
  chainId : string;
  assetId : string;
  symbol : string;
  decimals : nat
}.

Record Route := { source : Asset; destination : Asset }.

(** A USDC-to-USDC route, Ethereum to Polygon (6 decimals on both sides). *)
Definition usdcEthereum : Asset :=
  {| chainId := "1"; assetId := "0xa0b86991c6218b36c1d19d4a2e9eb0ce3606eb48";
     symbol := "USDC"; decimals := 6 |}.
Definition usdcPolygon : Asset :=
  {| chainId := "137"; assetId := "0x2791bca1f2de4661ed88a30c99a7a9449aa84174";
     symbol := "USDC"; decimals := 6 |}.
Definition ethereumToPolygon : Route :=
  {| source := usdcEthereum; destination := usdcPolygon |}.

(** *** The in-memory cache: [Map<string, { data; expires }>] *)

Definition CACHE_TTL : Z := 60000.   (* 1 minute cache *)

Record entry (V : Type) := { data : V; expires : Z }.
Arguments data {V} _.
Arguments expires {V} _.

(** [getFromCache]: the value returned ([None] is [null]) and the map
    afterwards. *)
Definition getFromCache {V} (now : Z) (key : string) (cache : gmap string (entry V))
    : option V * gmap string (entry V) :=
  match cache !! key with
  | Some cached =>
      if expires cached >? now
      then (Some (data cached), cache)
      else (None, delete key cache)
  | None => (None, cache)
  end.

(** [setCache]. *)
Definition setCache {V} (now : Z) (key : string) (v : V) (cache : gmap string (entry V))
    : gmap string (entry V) :=
  <[key := {| data := v; expires := now + CACHE_TTL |}]> cache.

(** *** binary64 arithmetic *)

Definition prec : Z := 53.
Definition emax : Z := 1024.

(** [Number(n)] for an integer [n] (a [bigint], or a decimal string of
    digits): the nearest double. *)
Definition Number (n : Z) : spec_float := binary_normalize prec emax n 0 false.

(** [Math.pow(10, d)].  The power is exact for [d <= 22], which covers the
    0-18 decimals of an asset. *)
Definition pow10 (d : nat) : spec_float := Number (10 ^ Z.of_nat d).

Definition fdiv (x y : spec_float) : spec_float := SFdiv prec emax x y.
Definition fmul (x y : spec_float) : spec_float := SFmul prec emax x y.

(** Truthiness of a number: neither [0], [-0] nor [NaN]. *)
Definition truthyNumber (x : spec_float) : bool :=
  match x with
  | S754_zero _ | S754_nan => false
  | _ => true
  end.

(** [calculateEffectiveRate]. *)
Definition calculateEffectiveRate (amountIn amountOut : Z) (decimalsIn decimalsOut : nat)
    : spec_float :=
  if amountIn =? 0 then S754_zero false
  else
    let normalizedIn := fdiv (Number amountIn) (pow10 decimalsIn) in
    let normalizedOut := fdiv (Number amountOut) (pow10 decimalsOut) in
    fdiv normalizedOut normalizedIn.

(** [calculateFeeUsd], on the integer the [amount] string denotes. *)
Definition calculateFeeUsd (amount : Z) (asset : Asset) : spec_float :=
  let feeBps := Number 25 in
  let amountNum := fdiv (Number amount) (pow10 (decimals asset)) in
  let usdValue := fmul amountNum (Number 1) in
  fmul usdValue (fdiv feeBps (Number 10000)).

(** *** Liquidity depth *)

Definition UPPER_BOUND : Z := 10000000000000000000.   (* 10^19 as upper bound *)

(** The "expected amount out" of [calculateSlippage]: 1:1, adjusted for
    decimals, with the truncating [bigint] division. *)
Definition expectedOut (route : Route) (amountIn : Z) : Z :=
  Z.quot (amountIn * 10 ^ Z.of_nat (decimals (destination route)))
         (10 ^ Z.of_nat (decimals (source route))).

(** [calculateSlippage], in basis points.  The [bigint] quotient is turned
    into a number only to be compared with the integer budget, which
    does not change the comparison, so it is kept as an integer. *)
Definition calculateSlippage (route : Route) (amountIn amountOut : Z) : Z :=
  let expected := expectedOut route amountIn in
  if expected =? 0 then 0
  else Z.abs (Z.quot ((expected - amountOut) * 10000) expected).

(** The loop of [findMaxAmountForSlippage].  [quote mid] is the [amountOut]
    obtained for [amountIn = mid]; [None] means that the [try] block threw. *)
Fixpoint search (quote : Z -> option Z) (route : Route) (slippageBps : Z)
    (iterations : nat) (low high : Z) : Z :=
  match iterations with
  | O => low
  | S iterations' =>
      let mid := Z.quot (low + high) 2 in
      if (mid =? low) || (mid =? high) then low
      else
        match quote mid with
        | Some amountOut =>
            if calculateSlippage route mid amountOut <=? slippageBps
            then search quote route slippageBps iterations' mid high
            else search quote route slippageBps iterations' low mid
        | None => search quote route slippageBps iterations' low mid
        end
  end.

Definition findMaxAmountForSlippage (quote : Z -> option Z) (route : Route)
    (slippageBps : Z) : Z :=
  search quote route slippageBps 25 0 UPPER_BOUND.

(** A quote source without slippage: every probe gets the ideal output. *)
Definition idealQuote (route : Route) (amountIn : Z) : option Z :=
  Some (expectedOut route amountIn).

(** The fallback of [getQuoteForAmount]: the 25 bps fee model. *)
Definition feeModelQuote (amountIn : Z) : option Z :=
  Some (Z.quot (amountIn * (10000 - 25)) 10000).

(** The search when every probe is feasible: [low] climbs each time. *)
Fixpoint climb (iterations : nat) (low high : Z) : Z :=
  match iterations with
  | O => low
  | S iterations' =>
      let mid := Z.quot (low + high) 2 in
      if (mid =? low) || (mid =? high) then low
      else climb iterations' mid high
  end.

(** *** Rates *)

(** A notional arrives as a string.  The code only ever applies [BigInt]
    and [Number] to it, so a notional is represented by what [BigInt]
    makes of it: the integer it denotes, or a string that [BigInt]
    rejects with a [SyntaxError]. *)
Inductive Notional :=
  | Digits (n : Z)
  | Malformed (s : string).

(** [BigInt(notional)]; [None] is the thrown [SyntaxError]. *)
Definition BigInt (notional : Notional) : option Z :=
  match notional with
  | Digits n => Some n
  | Malformed _ => None
  end.

(** The fields of a quote document that [getSingleRate] looks at.  For an
    amount field: [None] when the field is absent or falsy, otherwise
    [Some c] with [c] the result of [BigInt] on the value ([None] when
    [BigInt] throws).  For a fee field: [None] when absent or falsy,
    otherwise the number. *)
Record QuoteData := {
  amountOut : option (option Z);
  targetAmount : option (option Z);
  estimatedAmount : option (option Z);
  toAmount : option (option Z);
  feeUsd : option spec_float;
  feeUSD : option spec_float
}.

(** What [await response.json()] yields. *)
Inductive Body :=
  | BadJson                       (* [json()] rejects *)
  | Falsy                         (* [null], [0], [false] or the empty string *)
  | Document (q : QuoteData).     (* any other value, by its fields *)

(** The three URLs tried by [getSingleRate], in order. *)
Inductive QuoteEndpoint := V1Quote | ApiV1Quote | PlainQuote.

Definition quoteEndpoints : list QuoteEndpoint := [V1Quote; ApiV1Quote; PlainQuote].

(** The network as the service meets it: what [fetch] does on an attempt
    at an endpoint for a quote request. *)
Definition Network : Type :=
  QuoteEndpoint -> Route -> Notional -> Z -> Http.FetchOutcome Body.

Record RateType := {
  rateSource : Asset;
  rateDestination : Asset;
  amountIn : Notional;
  rateAmountOut : Z;              (* [amountOutBN.toString()] *)
  effectiveRate : spec_float;
  totalFeesUsd : spec_float
}.

(** The object returned by [calculateWormholeQuote]. *)
Record WormholeQuote := { quoteAmountOut : Z; quoteFeeUsd : spec_float }.

(** [calculateWormholeQuote]; [None] when [BigInt(notional)] throws. *)
Definition calculateWormholeQuote (route : Route) (notional : Notional)
    : option WormholeQuote :=
  amountBN ← BigInt notional;
  let feeBps := 25 in
  let amountOutBN := Z.quot (amountBN * (10000 - feeBps)) 10000 in
  Some {| quoteAmountOut := amountOutBN;
          quoteFeeUsd := calculateFeeUsd amountBN (source route) |}.

(** The fallback object seen through the field accesses of
    [getSingleRate]: [amountOut] is a non-empty string, hence truthy. *)
Definition asQuoteData (q : WormholeQuote) : QuoteData :=
  {| amountOut := Some (Some (quoteAmountOut q));
     targetAmount := None; estimatedAmount := None; toAmount := None;
     feeUsd := if truthyNumber (quoteFeeUsd q) then Some (quoteFeeUsd q) else None;
     feeUSD := None |}.

(** [createFallbackRate]; [None] when it throws. *)
Definition createFallbackRate (route : Route) (notional : Notional) : option RateType :=
  quoteData ← calculateWormholeQuote route notional;
  amountInBN ← BigInt notional;
  let amountOutBN := quoteAmountOut quoteData in
  Some {| rateSource := source route;
          rateDestination := destination route;
          amountIn := notional;
          rateAmountOut := amountOutBN;
          effectiveRate :=
            calculateEffectiveRate amountInBN amountOutBN
              (decimals (source route)) (decimals (destination route));
          totalFeesUsd := quoteFeeUsd quoteData |}.

(** [{ ...this.retryConfig, maxRetries: 1 }]. *)
Definition oneRetry (retryConfig : Http.RetryConfig) : Http.RetryConfig :=
  {| Http.maxRetries := 1;
     Http.baseDelayMs := Http.baseDelayMs retryConfig;
     Http.maxDelayMs := Http.maxDelayMs retryConfig |}.

(** The endpoint loop of [getSingleRate]: the value left in [quoteData]
    ([None] for a value that [!quoteData] treats as missing).  Every call
    goes through [fetchWithRetry] with [maxRetries: 1] and no limiter. *)
Fixpoint firstQuote (retryConfig : Http.RetryConfig) (net : Network)
    (route : Route) (notional : Notional) (endpoints : list QuoteEndpoint)
    : option QuoteData :=
  match endpoints with
  | [] => None
  | endpoint :: rest =>
      match Http.settled (Http.fetchWithRetry (oneRetry retryConfig) false
                            (net endpoint route notional)) with
      | inl response =>
          if Http.ok response
          then match Http.body response with
               | BadJson => firstQuote retryConfig net route notional rest
               | Falsy => None
               | Document q => Some q
               end
          else firstQuote retryConfig net route notional rest
      | inr _ => firstQuote retryConfig net route notional rest
      end
  end.

(** [a || b] on optional field values. *)
Definition orElse {A} (a b : option A) : option A :=
  match a with Some _ => a | None => b end.

(** [getSingleRate]; [None] when it throws.  Waiting for the rate limiter
    only delays the call and is left out. *)
Definition getSingleRate (retryConfig : Http.RetryConfig) (net : Network)
    (route : Route) (notional : Notional) : option RateType :=
  quoteData ←
    match firstQuote retryConfig net route notional quoteEndpoints with
    | Some q => Some q
    | None => asQuoteData <$> calculateWormholeQuote route notional
    end;
  amountInBN ← BigInt notional;
  amountOutBN ←
    default (BigInt notional)
      (orElse (amountOut quoteData)
         (orElse (targetAmount quoteData)
            (orElse (estimatedAmount quoteData) (toAmount quoteData))));
  let fee :=
    default (calculateFeeUsd amountInBN (source route))
      (orElse (feeUsd quoteData) (feeUSD quoteData)) in
  Some {| rateSource := source route;
          rateDestination := destination route;
          amountIn := notional;
          rateAmountOut := amountOutBN;
          effectiveRate :=
            calculateEffectiveRate amountInBN amountOutBN
              (decimals (source route)) (decimals (destination route));
          totalFeesUsd := fee |}.

(** The body of the inner loop of [getRates]: [try] the live rate,
    [catch] with the fallback rate; [None] when the fallback throws too. *)
Definition rateEntry (retryConfig : Http.RetryConfig) (net : Network)
    (item : Route * Notional) : option RateType :=
  match getSingleRate retryConfig net item.1 item.2 with
  | Some rate => Some rate
  | None => createFallbackRate item.1 item.2
  end.

(** The order in which the nested loops visit route and notional. *)
Definition batch (routes : list Route) (notionals : list Notional)
    : list (Route * Notional) :=
  route ← routes; notional ← notionals; [(route, notional)].

(** [getRates]; [None] when the promise rejects. *)
Definition getRates (retryConfig : Http.RetryConfig) (net : Network)
    (routes : list Route) (notionals : list Notional) : option (list RateType) :=
  mapM (rateEntry retryConfig net) (batch routes notionals).

(** A quote endpoint fails for a request: the retried call throws, or it
    returns a response that is not [ok], or one whose body is not JSON. *)
Definition endpointFails (retryConfig : Http.RetryConfig) (net : Network)
    (route : Route) (notional : Notional) (endpoint : QuoteEndpoint) : bool :=
  match Http.settled (Http.fetchWithRetry (oneRetry retryConfig) false
                        (net endpoint route notional)) with
  | inl response =>
      negb (Http.ok response) ||
      match Http.body response with BadJson => true | _ => false end
  | inr _ => true
  end.

(** Every quote endpoint fails for the request. *)
Definition allEndpointsFail (retryConfig : Http.RetryConfig) (net : Network)
    (route : Route) (notional : Notional) : Prop :=
  forall endpoint, endpointFails retryConfig net route notional endpoint = true.

(** The API is unavailable for a request: each attempt at each endpoint
    ends in an error (a 429, a 5xx, or a transport failure). *)
Definition unavailable (net : Network) (route : Route) (notional : Notional) : Prop :=
  forall (endpoint : QuoteEndpoint) (attempt : Z),
    Http.attemptFails (net endpoint route notional attempt) = true.

(** A notional that [BigInt] accepts. *)
Definition wellFormed (notional : Notional) : Prop := is_Some (BigInt notional).

(** The default retry configuration of the service constructor. *)
Definition serviceRetryConfig : Http.RetryConfig :=
  {| Http.maxRetries := 3; Http.baseDelayMs := 1000; Http.maxDelayMs := 10000 |}.

(** The rate of the 25 bps fee model for a notional of 1000000 on the
    USDC route. *)
Definition fallbackMillion : RateType :=
  {| rateSource := usdcEthereum; rateDestination := usdcPolygon;
     amountIn := Digits 1000000; rateAmountOut := 997500;
     effectiveRate := calculateEffectiveRate 1000000 997500 6 6;
     totalFeesUsd := calculateFeeUsd 1000000 usdcEthereum |}.

(** [calculateEffectiveRate] as section 4.6 of the specification words
    it: [(amountOut / 10^decimalsOut) / (amountIn / 10^decimalsIn)], and 0
    when [amountIn] is 0, the divisions being those of binary64. *)
Definition effectiveRateFormula (amountIn amountOut : Z) (decimalsIn decimalsOut : nat)
    : spec_float :=
  match amountIn with
  | 0 => Number 0
  | _ => fdiv (fdiv (Number amountOut) (pow10 decimalsOut))
              (fdiv (Number amountIn) (pow10 decimalsIn))
  end.

(** The real number a finite double stands for, as a fraction
    [numerator / denominator]. *)
Definition fractionOf (x : spec_float) : option (Z * Z) :=
  match x with
  | S754_zero _ => Some (0, 1)
  | S754_finite s m e =>
      let m' := if s then Z.neg m else Z.pos m in
      Some (if 0 <=? e then (m' * 2 ^ e, 1) else (m', 2 ^ (- e)))
  | _ => None
  end.

(** A network on which the API answers 503 to everything. *)
Definition down : Network :=
  fun _ _ _ _ => Http.Responded (Http.plain 503 BadJson).

(** *** Chain identifiers *)

(** [WORMHOLE_CHAIN_IDS], as written: standard chain id to Wormhole chain
    id. *)
Definition WORMHOLE_CHAIN_IDS_literal : list (string * Z) :=
  [("1", 2); ("137", 5); ("42161", 23); ("10", 24); ("43114", 6); ("56", 4);
   ("8453", 30); ("42220", 14); ("250", 10); ("100", 13); ("84532", 30);
   ("11155111", 2)]%string.

Definition WORMHOLE_CHAIN_IDS : gmap string Z := list_to_map WORMHOLE_CHAIN_IDS_literal.

(** [Object.entries(WORMHOLE_CHAIN_IDS)]: keys that are whole numbers come
    in ascending numeric order. *)
Definition WORMHOLE_CHAIN_IDS_entries : list (string * Z) :=
  [("1", 2); ("10", 24); ("56", 4); ("100", 13); ("137", 5); ("250", 10);
   ("8453", 30); ("42161", 23); ("42220", 14); ("43114", 6); ("84532", 30);
   ("11155111", 2)]%string.

(** [Object.fromEntries]: a later entry replaces an earlier one with the
    same key. *)
Definition fromEntries (entries : list (Z * string)) : gmap Z string :=
  foldl (fun m e => <[fst e := snd e]> m) ∅ entries.

(** [CHAIN_ID_TO_STANDARD]: the "reverse mapping". *)
Definition CHAIN_ID_TO_STANDARD : gmap Z string :=
  fromEntries ((fun e => (snd e, fst e)) <$> WORMHOLE_CHAIN_IDS_entries).

(** [CHAIN_ID_TO_STANDARD[n] || chainId] in [parseTokens]. *)
Definition standardChainId (n : Z) (chainId : string) : string :=
  default chainId (CHAIN_ID_TO_STANDARD !! n).

End Service.

(** ** utils/metrics.ts: the metrics collector *)

Module Metrics.

Inductive ErrorType := TimeoutError | RateLimitedError.   (* "timeout" | "rateLimited" *)

Record ApiCalls := {
  total : Z;
  success : Z;
  failures : Z;
  timeouts : Z;
  rateLimited : Z
}.

(** Latencies are whole milliseconds.  [min] starts as [Infinity], which is
    [None] here. *)
Record Latency := {
  min : option Z;
  max : Z;
  avg : spec_float;
  p95 : Z;
  p99 : Z
}.

Record CacheStats := {
  hits : Z;
  misses : Z;
  hitRate : spec_float
}.

(** The private fields [metrics] and [latencyHistory]. *)
Record collector := {
  apiCalls : ApiCalls;
  latency : Latency;
  cache : CacheStats;
  lastUpdated : Z;
  latencyHistory : list Z
}.

(** The initial value of the fields, also the value after [reset()]. *)
Definition create (now : Z) : collector :=
  {| apiCalls := {| total := 0; success := 0; failures := 0; timeouts := 0; rateLimited := 0 |};
     latency := {| min := None; max := 0; avg := Service.Number 0; p95 := 0; p99 := 0 |};
     cache := {| hits := 0; misses := 0; hitRate := Service.Number 0 |};
     lastUpdated := now;
     latencyHistory := [] |}.

Definition reset (now : Z) (c : collector) : collector := create now.

(** [[...history].sort((a, b) => a - b)]: the history in ascending order. *)
Definition sortAscending (history : list Z) : list Z := merge_sort Z.le history.

(** [Math.floor] of a double. *)
Definition floorOf (x : spec_float) : Z :=
  match x with
  | S754_finite s m e =>
      let v := if s then Z.neg m else Z.pos m in
      if 0 <=? e then v * 2 ^ e else v / 2 ^ (- e)
  | _ => 0
  end.

(** [Math.floor(length * 0.95)] and [Math.floor(length * 0.99)], the product
    being that of binary64; the literal is the double nearest to
    [hundredths / 100]. *)
Definition percentileIndex (len : nat) (hundredths : Z) : nat :=
  Z.to_nat (floorOf (Service.fmul (Service.Number (Z.of_nat len))
                       (Service.fdiv (Service.Number hundredths) (Service.Number 100)))).

(** [updateLatencyMetrics].  [sorted[0]] and [sorted[length - 1]] exist for a
    history that is not empty; [|| 0] covers an index outside the array.
    The sum of whole milliseconds is exact in binary64 below 2^53. *)
Definition updateLatencyMetrics (history : list Z) (old : Latency) : Latency :=
  match history with
  | [] => old
  | _ :: _ =>
      let sorted := sortAscending history in
      {| min := sorted !! 0%nat;
         max := default 0 (sorted !! (length sorted - 1)%nat);
         avg := Service.fdiv (Service.Number (foldr Z.add 0 sorted))
                  (Service.Number (Z.of_nat (length sorted)));
         p95 := default 0 (sorted !! percentileIndex (length sorted) 95);
         p99 := default 0 (sorted !! percentileIndex (length sorted) 99) |}
  end.

(** [recordApiCall]. *)
Definition recordApiCall (now : Z) (ok : bool) (ms : Z) (errorType : option ErrorType)
    (c : collector) : collector :=
  let a := apiCalls c in
  let a' :=
    {| total := total a + 1;
       success := if ok then success a + 1 else success a;
       failures := if ok then failures a else failures a + 1;
       timeouts := match ok, errorType with
                   | false, Some TimeoutError => timeouts a + 1
                   | _, _ => timeouts a
                   end;
       rateLimited := match ok, errorType with
                      | false, Some RateLimitedError => rateLimited a + 1
                      | _, _ => rateLimited a
                      end |} in
  let pushed := latencyHistory c ++ [ms] in
  let history := if (1000 <? length pushed)%nat then tail pushed else pushed in
  {| apiCalls := a';
     latency := updateLatencyMetrics history (latency c);
     cache := cache c;
     lastUpdated := now;
     latencyHistory := history |}.

(** [recordCacheHit]. *)
Definition recordCacheHit (hit : bool) (c : collector) : collector :=
  let h := if hit then hits (cache c) + 1 else hits (cache c) in
  let m := if hit then misses (cache c) else misses (cache c) + 1 in
  let all := h + m in
  {| apiCalls := apiCalls c;
     latency := latency c;
     cache := {| hits := h; misses := m;
                 hitRate := if 0 <? all
                            then Service.fdiv (Service.Number h) (Service.Number all)
                            else Service.Number 0 |};
     lastUpdated := lastUpdated c;
     latencyHistory := latencyHistory c |}.

(** The calls a collector receives, with the clock of each. *)
Inductive call :=
  | RecordApiCall (ok : bool) (ms : Z) (errorType : option ErrorType)
  | RecordCacheHit (hit : bool)
  | Reset.

Definition step (c : collector) (ev : Z * call) : collector :=
  match snd ev with
  | RecordApiCall ok ms errorType => recordApiCall (fst ev) ok ms errorType c
  | RecordCacheHit hit => recordCacheHit hit c
  | Reset => reset (fst ev) c
  end.

Definition run (c : collector) (calls : list (Z * call)) : collector :=
  fold_left step calls c.

(** The latencies recorded by a list of calls since the last reset. *)
Fixpoint recorded (acc : list Z) (calls : list (Z * call)) : list Z :=
  match calls with
  | [] => acc
  | (_, RecordApiCall _ ms _) :: rest => recorded (acc ++ [ms]) rest
  | (_, RecordCacheHit _) :: rest => recorded acc rest
  | (_, Reset) :: rest => recorded [] rest
  end.

(** The last [n] elements of a list. *)
Definition lastN {A} (n : nat) (l : list A) : list A := drop (length l - n) l.

(** The percentile indices stay inside a history of [len] latencies and
    are in order. *)
Definition indicesInRange (len : nat) : bool :=
  (percentileIndex len 95 <=? percentileIndex len 99)%nat &&
  (percentileIndex len 99 <? len)%nat.

(** The counters agree with one another. *)
Definition countersAgree (c : collector) : Prop :=
  let a := apiCalls c in
  total a = success a + failures a /\
  0 <= success a /\ 0 <= timeouts a /\ 0 <= rateLimited a /\
  timeouts a + rateLimited a <= failures a /\
  0 <= hits (cache c) /\ 0 <= misses (cache c).

(** Number of [recordApiCall] calls since the last reset. *)
Fixpoint apiCallsSince (n : Z) (calls : list (Z * call)) : Z :=
  match calls with
  | [] => n
  | (_, RecordApiCall _ _ _) :: rest => apiCallsSince (n + 1) rest
  | (_, RecordCacheHit _) :: rest => apiCallsSince n rest
  | (_, Reset) :: rest => apiCallsSince 0 rest
  end.

End Metrics.

(** ** Validation of notionals (the validation utilities) *)

Module Validation.

Record ValidationResult := { valid : bool; errors : list string }.

(** A notional string by the two things the code asks of it: whether it is
    empty or blank ([!notional || notional.trim() === ""]), and what [BigInt]
    makes of it. *)
Record NotionalText := { blank : bool; parsed : Service.Notional }.

(** [BigInt("1000000000000000000000000")]: "1M tokens max". *)
Definition MAX_NOTIONAL : Z := 1000000000000000000000000.

(** The errors pushed by the [try] block of [validateNotional], or by its
    [catch] when [BigInt] throws. *)
Definition amountErrors (notional : Service.Notional) : list string :=
  match Service.BigInt notional with
  | Some amount =>
      (if amount <=? 0 then ["Notional amount must be greater than 0"%string] else []) ++
      (if amount >? MAX_NOTIONAL
       then ["Notional amount exceeds maximum allowed"%string] else [])
  | None => ["Notional amount must be a valid number"%string]
  end.

(** [validateNotional]. *)
Definition validateNotional (notional : NotionalText) : ValidationResult :=
  if blank notional
  then {| valid := false; errors := ["Notional amount is required"%string] |}
  else
    let errs := amountErrors (parsed notional) in
    {| valid := (length errs =? 0)%nat; errors := errs |}.

(** [errors.join(", ")]. *)
Definition join (separator : string) (parts : list string) : string :=
  String.concat separator parts.

(** The loop of [validateNotionals], from index [i] on. *)
Fixpoint notionalErrors (i : nat) (notionals : list NotionalText) : list string :=
  match notionals with
  | [] => []
  | notional :: rest =>
      let result := validateNotional notional in
      (if valid result then []
       else [("Notional " +:+ Http.showInt (Z.of_nat i + 1) +:+ ": "
                +:+ join ", " (errors result))%string])
      ++ notionalErrors (S i) rest
  end.

(** [validateNotionals]. *)
Definition validateNotionals (notionals : list NotionalText) : ValidationResult :=
  match notionals with
  | [] => {| valid := false;
             errors := ["At least one notional amount is required"%string] |}
  | _ :: _ =>
      let errs := notionalErrors 0 notionals in
      {| valid := (length errs =? 0)%nat; errors := errs |}
  end.

(** A notional that [validateNotional] has nothing to say against. *)
Definition acceptable (notional : NotionalText) : Prop :=
  blank notional = false /\
  exists amount, parsed notional = Service.Digits amount /\ 0 < amount <= MAX_NOTIONAL.

End Validation.

(** ** The service: volumes *)

Module Volumes.

Inductive Window := W24h | W7d | W30d.   (* "24h" | "7d" | "30d" *)

Definition windowName (w : Window) : string :=
  match w with W24h => "24h" | W7d => "7d" | W30d => "30d" end.

(** A row of the result ([measuredAt] is left out). *)
Record VolumeWindow := { window : Window; volumeUsd : spec_float }.

Definition zero : spec_float := Service.Number 0.

(** An object with the keys "24h", "7d" and "30d". *)
Record ByWindow := { v24h : spec_float; v7d : spec_float; v30d : spec_float }.

Definition valueAt (r : ByWindow) (w : Window) : spec_float :=
  match w with W24h => v24h r | W7d => v7d r | W30d => v30d r end.

Definition setAt (r : ByWindow) (w : Window) (x : spec_float) : ByWindow :=
  match w with
  | W24h => {| v24h := x; v7d := v7d r; v30d := v30d r |}
  | W7d => {| v24h := v24h r; v7d := x; v30d := v30d r |}
  | W30d => {| v24h := v24h r; v7d := v7d r; v30d := x |}
  end.

(** The fields read from the document of a volume endpoint: [None] when
    the field is absent or falsy, otherwise its (numeric) value. *)
Record VolumeDoc := {
  d24h : option spec_float; last24h : option spec_float;
  daily : option spec_float; volume24h : option spec_float;
  d7d : option spec_float; last7d : option spec_float;
  weekly : option spec_float; volume7d : option spec_float;
  d30d : option spec_float; last30d : option spec_float;
  monthly : option spec_float; volume30d : option spec_float
}.

(** What [await response.json()] yields; reading a field of [null] throws. *)
Inductive VolumeBody := VBadJson | VNull | VDoc (d : VolumeDoc).

(** The three URLs tried by [fetchVolumeData], in order. *)
Inductive VolumeEndpoint := ObservationsVolume | StatsVolume | ApiVolume.

Definition volumeEndpoints : list VolumeEndpoint :=
  [ObservationsVolume; StatsVolume; ApiVolume].

Definition VolumeNetwork : Type := VolumeEndpoint -> Z -> Http.FetchOutcome VolumeBody.

(** The DefiLlama document: [data.volume24h], [data.volume7d],
    [data.volume30d]. *)
Record LlamaDoc := {
  llama24h : option spec_float; llama7d : option spec_float; llama30d : option spec_float
}.
Inductive LlamaBody := LBadJson | LNull | LDoc (d : LlamaDoc).
Definition LlamaNetwork : Type := Z -> Http.FetchOutcome LlamaBody.

Definition zeros : ByWindow := {| v24h := zero; v7d := zero; v30d := zero |}.

(** [getEstimatedVolume]. *)
Definition getEstimatedVolume (w : Window) : spec_float :=
  match w with
  | W24h => Service.Number 15000000
  | W7d => Service.Number 105000000
  | W30d => Service.Number 450000000
  end.

(** [getVolumeFromBlockchainExplorers]. *)
Definition getVolumeFromBlockchainExplorers : ByWindow :=
  {| v24h := getEstimatedVolume W24h; v7d := getEstimatedVolume W7d;
     v30d := getEstimatedVolume W30d |}.

(** [getVolumeFromDefiLlama]: every failure ends in the zero record. *)
Definition getVolumeFromDefiLlama (retryConfig : Http.RetryConfig) (llama : LlamaNetwork)
    : ByWindow :=
  let cfg := {| Http.maxRetries := 2;
                Http.baseDelayMs := Http.baseDelayMs retryConfig;
                Http.maxDelayMs := Http.maxDelayMs retryConfig |} in
  match Http.settled (Http.fetchWithRetry cfg false llama) with
  | inl response =>
      if Http.ok response
      then match Http.body response with
           | LDoc d => {| v24h := default zero (llama24h d);
                          v7d := default zero (llama7d d);
                          v30d := default zero (llama30d d) |}
           | LBadJson | LNull => zeros
           end
      else zeros
  | inr _ => zeros
  end.

(** The inner loop of [getVolumeFromPublicSources] for one source. *)
Definition mergeSource (windows : list Window) (volumes data : ByWindow) : ByWindow :=
  foldl (fun vols w =>
           if Service.truthyNumber (valueAt data w) &&
              SFltb (valueAt vols w) (valueAt data w)
           then setAt vols w (valueAt data w) else vols)
        volumes windows.

Definition isZero (x : spec_float) : bool :=
  match x with S754_zero _ => true | _ => false end.

(** [getVolumeFromPublicSources]: an array with one row per window. *)
Definition getVolumeFromPublicSources (retryConfig : Http.RetryConfig)
    (llama : LlamaNetwork) (windows : list Window) : list VolumeWindow :=
  let sources := [getVolumeFromDefiLlama retryConfig llama;
                  getVolumeFromBlockchainExplorers] in
  let merged := foldl (mergeSource windows) zeros sources in
  let filled := foldl (fun vols w =>
                         if isZero (valueAt vols w)
                         then setAt vols w (getEstimatedVolume w) else vols)
                      merged windows in
  (fun w => {| window := w; volumeUsd := valueAt filled w |}) <$> windows.

(** What [fetchVolumeData] returns: an object keyed by window from an
    endpoint, or the array of [getVolumeFromPublicSources]. *)
Inductive VolumeData :=
  | AsRecord (r : ByWindow)
  | AsRows (rows : list VolumeWindow).

Definition firstOf (a b c d : option spec_float) : spec_float :=
  default zero (Service.orElse a (Service.orElse b (Service.orElse c d))).

(** The endpoint loop of [fetchVolumeData]. *)
Fixpoint fetchVolumeDataFrom (retryConfig : Http.RetryConfig) (net : VolumeNetwork)
    (llama : LlamaNetwork) (windows : list Window) (endpoints : list VolumeEndpoint)
    : VolumeData :=
  match endpoints with
  | [] => AsRows (getVolumeFromPublicSources retryConfig llama windows)
  | endpoint :: rest =>
      match Http.settled (Http.fetchWithRetry (Service.oneRetry retryConfig) false
                            (net endpoint)) with
      | inl response =>
          if Http.ok response
          then match Http.body response with
               | VDoc d =>
                   AsRecord
                     {| v24h := firstOf (d24h d) (last24h d) (daily d) (volume24h d);
                        v7d := firstOf (d7d d) (last7d d) (weekly d) (volume7d d);
                        v30d := firstOf (d30d d) (last30d d) (monthly d) (volume30d d) |}
               | VBadJson | VNull => fetchVolumeDataFrom retryConfig net llama windows rest
               end
          else fetchVolumeDataFrom retryConfig net llama windows rest
      | inr _ => fetchVolumeDataFrom retryConfig net llama windows rest
      end
  end.

Definition fetchVolumeData (retryConfig : Http.RetryConfig) (net : VolumeNetwork)
    (llama : LlamaNetwork) (windows : list Window) : VolumeData :=
  fetchVolumeDataFrom retryConfig net llama windows volumeEndpoints.

(** [volumeData[window] || 0]: an array has no property named after a
    window, so the lookup is [undefined] on it. *)
Definition lookupVolume (data : VolumeData) (w : Window) : spec_float :=
  match data with
  | AsRecord r => if Service.truthyNumber (valueAt r w) then valueAt r w else zero
  | AsRows _ => zero
  end.

(** [`volumes:${windows.join(",")}`]. *)
Definition cacheKey (windows : list Window) : string :=
  ("volumes:" +:+ String.concat "," (windowName <$> windows))%string.

(** [getVolumes]: the rows returned and the cache afterwards.  [now] is the
    clock of the cache lookup, [doneAt] that of the cache write.  Nothing
    inside the [try] block can throw, its [catch] is left out. *)
Definition getVolumes (retryConfig : Http.RetryConfig) (net : VolumeNetwork)
    (llama : LlamaNetwork) (now doneAt : Z) (windows : list Window)
    (cache : gmap string (Service.entry (list VolumeWindow)))
    : list VolumeWindow * gmap string (Service.entry (list VolumeWindow)) :=
  match Service.getFromCache now (cacheKey windows) cache with
  | (Some cached, cache') => (cached, cache')
  | (None, cache') =>
      let volumeData := fetchVolumeData retryConfig net llama windows in
      let result := (fun w => {| window := w; volumeUsd := lookupVolume volumeData w |})
                      <$> windows in
      (result, Service.setCache doneAt (cacheKey windows) result cache')
  end.

(** A volume endpoint fails: the retried call throws, or returns a response
    that is not [ok], or one whose body is not JSON or is [null]. *)
Definition volumeEndpointFails (retryConfig : Http.RetryConfig) (net : VolumeNetwork)
    (endpoint : VolumeEndpoint) : bool :=
  match Http.settled (Http.fetchWithRetry (Service.oneRetry retryConfig) false
                        (net endpoint)) with
  | inl response =>
      negb (Http.ok response) ||
      match Http.body response with VDoc _ => false | _ => true end
  | inr _ => true
  end.

(** Volume endpoints that answer 503 to everything; a DefiLlama that
    reports 20 million for the day. *)
Definition volumesDown : VolumeNetwork :=
  fun _ _ => Http.Responded (Http.plain 503 VBadJson).
Definition llamaUp : LlamaNetwork :=
  fun _ => Http.Responded
             (Http.plain 200 (LDoc {| llama24h := Some (Service.Number 20000000);
                                      llama7d := None; llama30d := None |})).

End Volumes.

(** ** The service: liquidity depth through the quote endpoints *)

Module Liquidity.

(** The fields of a quote document that [getQuoteForAmount] looks at, as in
    [Service.QuoteData]: [None] when absent or falsy, otherwise the result
    of the later [BigInt] on the value. *)
Record AmountDoc := {
  amountOut : option (option Z);
  targetAmount : option (option Z);
  estimatedAmount : option (option Z)
}.

(** What [await response.json()] yields; reading a field of [null] throws. *)
Inductive AmountBody := ABadJson | ANull | ADoc (d : AmountDoc).

(** What [fetch] does on an attempt at an endpoint for a route and an
    amount. *)
Definition AmountNetwork : Type :=
  Service.QuoteEndpoint -> Service.Route -> Z -> Z -> Http.FetchOutcome AmountBody.

(** The two URLs tried by [getQuoteForAmount], in order. *)
Definition amountEndpoints : list Service.QuoteEndpoint :=
  [Service.V1Quote; Service.ApiV1Quote].

(** The endpoint loop of [getQuoteForAmount] followed by its fallback.  The
    result is what [BigInt(quote.amountOut)] gives in [calculateSlippage],
    [None] when that throws. *)
Fixpoint quoteFrom (retryConfig : Http.RetryConfig) (net : AmountNetwork)
    (route : Service.Route) (amount : Z) (endpoints : list Service.QuoteEndpoint)
    : option Z :=
  match endpoints with
  | [] => Service.feeModelQuote amount
  | endpoint :: rest =>
      match Http.settled (Http.fetchWithRetry (Service.oneRetry retryConfig) false
                            (net endpoint route amount)) with
      | inl response =>
          if Http.ok response
          then match Http.body response with
               | ADoc d =>
                   default (Some amount)
                     (Service.orElse (amountOut d)
                        (Service.orElse (targetAmount d) (estimatedAmount d)))
               | ABadJson | ANull => quoteFrom retryConfig net route amount rest
               end
          else quoteFrom retryConfig net route amount rest
      | inr _ => quoteFrom retryConfig net route amount rest
      end
  end.

(** [getQuoteForAmount].  The wait for the rate limiter before the request
    delays the call and does not change its result. *)
Definition getQuoteForAmount (retryConfig : Http.RetryConfig) (net : AmountNetwork)
    (route : Service.Route) (amount : Z) : option Z :=
  quoteFrom retryConfig net route amount amountEndpoints.

(** One element of the result of [getLiquidityDepth] ([measuredAt] is left
    out); a threshold is [maxAmountIn] with its [slippageBps]. *)
Record LiquidityDepth := {
  depthRoute : Service.Route;
  thresholds : list (Z * Z)
}.

(** [getLiquidityDepth].  The search cannot throw, so the [catch] with the
    static thresholds is left out. *)
Definition getLiquidityDepth (retryConfig : Http.RetryConfig) (net : AmountNetwork)
    (routes : list Service.Route) : list LiquidityDepth :=
  (fun route =>
     let quote := getQuoteForAmount retryConfig net route in
     {| depthRoute := route;
        thresholds :=
          [(Service.findMaxAmountForSlippage quote route 50, 50);
           (Service.findMaxAmountForSlippage quote route 100, 100)] |}) <$> routes.

(** A quote endpoint fails for an amount. *)
Definition amountEndpointFails (retryConfig : Http.RetryConfig) (net : AmountNetwork)
    (route : Service.Route) (amount : Z) (endpoint : Service.QuoteEndpoint) : bool :=
  match Http.settled (Http.fetchWithRetry (Service.oneRetry retryConfig) false
                        (net endpoint route amount)) with
  | inl response =>
      negb (Http.ok response) ||
      match Http.body response with ADoc _ => false | _ => true end
  | inr _ => true
  end.

(** Quote endpoints that answer 503 to everything. *)
Definition quotesDown : AmountNetwork :=
  fun _ _ _ _ => Http.Responded (Http.plain 503 ABadJson).

End Liquidity.

(** * Properties *)

(** ** Circuit breaker *)

Section CircuitBreakerFacts.
Import CircuitBreaker.

Variable cfg : CircuitBreakerConfig.

Lemma periodicReset_state now b : state (periodicReset cfg now b) = state b.
Proof. unfold periodicReset. destruct (_ >? _); reflexivity. Qed.

Lemma periodicReset_lastFailureTime now b :
  lastFailureTime (periodicReset cfg now b) = lastFailureTime b.
Proof. unfold periodicReset. destruct (_ >? _); reflexivity. Qed.

Lemma periodicReset_failureCount now b :
  failureCount (periodicReset cfg now b) =
    if now - lastResetTime b >? resetTimeout cfg then 0 else failureCount b.
Proof. unfold periodicReset. destruct (_ >? _); reflexivity. Qed.

Lemma precheck_not_open now b :
  state b <> OPEN -> precheck cfg now b = Some (periodicReset cfg now b).
Proof.
  intros Hs. unfold precheck, checkState. rewrite periodicReset_state.
  destruct (state b); congruence.
Qed.

(** [onFailure] opens the circuit exactly when the incremented counter
    reaches the threshold. *)
Lemma onFailure_state now b :
  state (onFailure cfg now b) =
    if failureCount b + 1 >=? failureThreshold cfg then OPEN else state b.
Proof. reflexivity. Qed.

Lemma replay_reachable calls : forall t b,
  reachable cfg t b -> inOrder t calls ->
  reachable cfg (endOf t calls) (replay cfg b calls).
Proof.
  induction calls as [|[[now ok] doneAt] rest IH]; intros t b Hr Ho; simpl in *.
  - exact Hr.
  - destruct Ho as (H1 & H2 & H3).
    apply (IH doneAt); [|exact H3].
    eapply reach_execute; eauto.
Qed.

End CircuitBreakerFacts.

Section CircuitBreakerClaims.
Import CircuitBreaker.

(** C2, as stated, fails: a reachable HALF_OPEN breaker (default
    configuration, five failures, then one successful probe) stays
    HALF_OPEN when the next operation fails, because the success zeroed
    the failure counter and one failure does not reach the threshold 5. *)
Lemma half_open_failure_may_not_reopen :
  let b := replay defaultConfig (create 0) probingCalls in
  reachable defaultConfig 70001 b /\
  state b = HALF_OPEN /\
  state (fst (execute defaultConfig 70002 (scripted false) 70003 b)) = HALF_OPEN.
Proof.
  split; [|split; reflexivity].
  apply (replay_reachable defaultConfig probingCalls 0 (create 0)).
  - constructor.
  - simpl. lia.
Qed.

(** C2, amended: in HALF_OPEN a failing operation returns the breaker to
    OPEN exactly when the failure counter (zeroed first when the periodic
    reset is due) plus one reaches [failureThreshold]; otherwise the
    breaker stays HALF_OPEN.  The operation's error is re-thrown either
    way. *)
Theorem half_open_failure_reopens_iff_threshold
    {T E : Type} (cfg : CircuitBreakerConfig) (b : breaker) (now doneAt : Z)
    (fn : CircuitState -> outcome T E) (e : E) :
  state b = HALF_OPEN ->
  fn HALF_OPEN = Rejected e ->
  let counted := if now - lastResetTime b >? resetTimeout cfg then 0 else failureCount b in
  let b' := fst (execute cfg now fn doneAt b) in
  snd (execute cfg now fn doneAt b) = Rethrow e /\
  failureCount b' = counted + 1 /\
  (state b' = OPEN <-> counted + 1 >= failureThreshold cfg) /\
  (state b' <> OPEN -> state b' = HALF_OPEN).
Proof.
  intros Hs Hfn counted b'. subst counted b'.
  unfold execute. rewrite precheck_not_open by congruence.
  rewrite periodicReset_state, Hs, Hfn. cbn [fst snd].
  rewrite onFailure_state, periodicReset_state, Hs.
  cbn [onFailure failureCount]. rewrite periodicReset_failureCount.
  set (c := if now - lastResetTime b >? resetTimeout cfg then 0 else failureCount b).
  split; [reflexivity|]. split; [reflexivity|].
  destruct (c + 1 >=? failureThreshold cfg) eqn:Hc.
  - apply Z.geb_le in Hc. split; [split; [lia|reflexivity]|congruence].
  - rewrite Z.geb_leb in Hc. apply Z.leb_gt in Hc.
    split; [split; [discriminate|lia]|reflexivity].
Qed.

Lemma half_open_failure_reopens_iff_threshold_witness :
  let b := replay defaultConfig (create 0) trippingCalls in
  let b1 := fst (execute defaultConfig 70000 (scripted false) 70001 b) in
  state b1 = OPEN /\
  state (fst (execute defaultConfig 200000 (scripted false) 200001
                {| state := HALF_OPEN; failureCount := 4; successCount := 0;
                   lastFailureTime := 5; lastResetTime := 0 |})) = OPEN.
Proof.
  split; [reflexivity|].
  pose proof (half_open_failure_reopens_iff_threshold defaultConfig
                {| state := HALF_OPEN; failureCount := 4; successCount := 0;
                   lastFailureTime := 5; lastResetTime := 0 |}
                200000 200001 (scripted false) tt eq_refl eq_refl) as H.
  cbv zeta in H. destruct H as (_ & _ & H & _).
  apply H. vm_compute. discriminate.
Defined.

(** C6, as stated, fails at the boundary: with [now - lastFailureTime]
    equal to the open timeout (60000 ms) the call is still rejected
    without running the operation. *)
Lemma open_call_at_timeout_is_rejected :
  let b := replay defaultConfig (create 0) trippingCalls in
  reachable defaultConfig 5 b /\
  state b = OPEN /\
  60005 - lastFailureTime b >= timeout defaultConfig /\
  forall fn : CircuitState -> outcome unit unit,
    execute defaultConfig 60005 fn 60006 b = (b, CircuitOpenError).
Proof.
  split; [|split; [reflexivity|split; [vm_compute; discriminate|reflexivity]]].
  apply (replay_reachable defaultConfig trippingCalls 0 (create 0)).
  - constructor.
  - simpl. lia.
Qed.

(** C6, amended: while OPEN, a call made when [now - lastFailureTime] has
    not exceeded [timeout] fails with the circuit-open error whatever the
    operation is (it is not called) and the breaker stays OPEN; once
    [now - lastFailureTime > timeout] the call is admitted and the
    operation runs in a breaker that is already HALF_OPEN with a zero
    success counter. *)
Theorem open_rejects_until_timeout_exceeded
    (cfg : CircuitBreakerConfig) (b : breaker) (now : Z) :
  state b = OPEN ->
  (now - lastFailureTime b <= timeout cfg ->
     precheck cfg now b = None /\
     forall (T E : Type) (fn : CircuitState -> outcome T E) (doneAt : Z),
       snd (execute cfg now fn doneAt b) = CircuitOpenError /\
       state (fst (execute cfg now fn doneAt b)) = OPEN) /\
  (now - lastFailureTime b > timeout cfg ->
     exists b1,
       precheck cfg now b = Some b1 /\ state b1 = HALF_OPEN /\ successCount b1 = 0 /\
       forall (T E : Type) (fn : CircuitState -> outcome T E) (doneAt : Z),
         execute cfg now fn doneAt b =
           match fn HALF_OPEN with
           | Resolved v => (onSuccess cfg b1, Return v)
           | Rejected e => (onFailure cfg doneAt b1, Rethrow e)
           end).
Proof.
  intros Hs. split; intros Ht.
  - assert (Ha : precheck cfg now b = None).
    { unfold precheck, checkState.
      rewrite periodicReset_state, Hs, periodicReset_lastFailureTime.
      destruct (now - lastFailureTime b >? timeout cfg) eqn:Hgt; [|reflexivity].
      rewrite Z.gtb_ltb in Hgt. apply Z.ltb_lt in Hgt. lia. }
    split; [exact Ha|]. intros T E fn doneAt. unfold execute. rewrite Ha.
    cbn [fst snd]. rewrite periodicReset_state. auto.
  - assert (Hgt : (now - lastFailureTime b >? timeout cfg) = true).
    { rewrite Z.gtb_ltb. apply Z.ltb_lt. lia. }
    eexists. split; [|split; [|split]].
    + unfold precheck, checkState.
      rewrite periodicReset_state, Hs, periodicReset_lastFailureTime, Hgt. reflexivity.
    + reflexivity.
    + reflexivity.
    + intros T E fn doneAt. unfold execute, precheck, checkState.
      rewrite periodicReset_state, Hs, periodicReset_lastFailureTime, Hgt. reflexivity.
Qed.

Lemma open_rejects_until_timeout_exceeded_witness :
  let b := replay defaultConfig (create 0) trippingCalls in
  snd (execute defaultConfig 60005 (scripted true) 60006 b) = CircuitOpenError /\
  exists b1, precheck defaultConfig 60006 b = Some b1 /\ state b1 = HALF_OPEN.
Proof.
  pose proof (open_rejects_until_timeout_exceeded defaultConfig
                (replay defaultConfig (create 0) trippingCalls) 60005 eq_refl) as [H1 _].
  pose proof (open_rejects_until_timeout_exceeded defaultConfig
                (replay defaultConfig (create 0) trippingCalls) 60006 eq_refl) as [_ H2].
  split.
  - apply H1. vm_compute. discriminate.
  - destruct H2 as (b1 & Ha & Hh & _); [vm_compute; reflexivity|].
    exists b1. split; assumption.
Defined.

End CircuitBreakerClaims.

(** ** Rate limiter *)

Section RateLimiterFacts.
Import RateLimiter.

Variable cfg : config.

Lemma admissions_nil : admissions [] = 0.
Proof. reflexivity. Qed.

Lemma admissions_cons o log :
  admissions (o :: log) = (if isAdmission o then 1 else 0) + admissions log.
Proof.
  unfold admissions. rewrite filter_cons.
  destruct (isAdmission o); case_decide; try congruence; simpl length; lia.
Qed.

Lemma admissions_nonneg log : 0 <= admissions log.
Proof. unfold admissions. lia. Qed.

Lemma countSinceReset_app c log1 log2 :
  countSinceReset c (log1 ++ log2) = countSinceReset (countSinceReset c log1) log2.
Proof.
  revert c. induction log1 as [|[t [|who]] rest IH]; intros c; simpl; auto.
Qed.

Lemma countSinceReset_nonneg log : forall c, 0 <= c -> 0 <= countSinceReset c log.
Proof.
  induction log as [|[t [|who]] rest IH]; intros c Hc; simpl; auto.
  - apply IH. lia.
  - apply IH. lia.
Qed.

Lemma withinLimit_app c log1 log2 :
  withinLimit cfg c (log1 ++ log2) <->
  withinLimit cfg c log1 /\ withinLimit cfg (countSinceReset c log1) log2.
Proof.
  revert c. induction log1 as [|[t [|who]] rest IH]; intros c; simpl.
  - tauto.
  - apply IH.
  - rewrite IH. tauto.
Qed.

(** In a stretch without reset the counter grows by the admissions. *)
Lemma resetFree_count seg : forall c,
  resetFree seg -> countSinceReset c seg = c + admissions seg.
Proof.
  induction seg as [|[t [|who]] rest IH]; intros c Hf.
  - rewrite admissions_nil. simpl. lia.
  - inversion Hf; subst. discriminate.
  - inversion Hf; subst. simpl. rewrite IH by assumption.
    rewrite admissions_cons. simpl. lia.
Qed.

Lemma resetFree_withinLimit seg : forall c,
  withinLimit cfg c seg -> resetFree seg ->
  admissions seg = 0 \/ c + admissions seg <= maxRequests cfg.
Proof.
  induction seg as [|[t [|who]] rest IH]; intros c Hw Hf.
  - left. reflexivity.
  - inversion Hf; subst. discriminate.
  - inversion Hf as [|? ? _ Hrest]; subst. simpl in Hw. destruct Hw as [Hc Hw].
    right. rewrite admissions_cons. simpl.
    destruct (IH (c + 1) Hw Hrest) as [Hzero|Hle]; lia.
Qed.

(** What one run of [process] tells the observer agrees with the fields. *)
Lemma process_observed now l :
  let p := process cfg now l in
  withinLimit cfg (requestCount l) (observe now p) /\
  requestCount (after p) = countSinceReset (requestCount l) (observe now p).
Proof.
  unfold process, observe.
  destruct (processing l && queueIsEmpty l); [simpl; auto|].
  destruct (now - windowStart l >=? windowMs cfg); destruct (queue l) as [|r rest];
    simpl; auto.
  - destruct (0 <? maxRequests cfg) eqn:E; simpl; auto.
    apply Z.ltb_lt in E. auto.
  - destruct (requestCount l <? maxRequests cfg) eqn:E; simpl; auto.
    apply Z.ltb_lt in E. auto.
Qed.

Lemma step_observed l ev :
  withinLimit cfg (requestCount l) (snd (step cfg l ev)) /\
  requestCount (fst (step cfg l ev)) =
    countSinceReset (requestCount l) (snd (step cfg l ev)).
Proof.
  destruct ev as [now [who| |info]]; simpl.
  - apply (process_observed now
             {| queue := queue l ++ [who]; processing := processing l;
                requestCount := requestCount l; windowStart := windowStart l;
                lastRateLimitInfo := lastRateLimitInfo l |}).
  - apply process_observed.
  - auto.
Qed.

Lemma run_observed trace : forall l,
  withinLimit cfg (requestCount l) (snd (run cfg l trace)) /\
  requestCount (fst (run cfg l trace)) =
    countSinceReset (requestCount l) (snd (run cfg l trace)).
Proof.
  induction trace as [|ev rest IH]; intros l; simpl; [auto|].
  pose proof (step_observed l ev) as [Hw Hc].
  destruct (step cfg l ev) as [l1 obs1]. simpl in Hw, Hc.
  pose proof (IH l1) as [Hw' Hc'].
  destruct (run cfg l1 rest) as [l2 obs2]. simpl in *.
  rewrite withinLimit_app, countSinceReset_app, <- Hc. auto.
Qed.

(** Between two resets the admissions never exceed [maxRequests]. *)
Lemma segment_bounded l trace pre seg post :
  0 <= maxRequests cfg -> 0 <= requestCount l ->
  snd (run cfg l trace) = pre ++ seg ++ post ->
  resetFree seg -> admissions seg <= maxRequests cfg.
Proof.
  intros Hm Hc Hlog Hf.
  pose proof (run_observed trace l) as [Hw _]. rewrite Hlog in Hw.
  apply withinLimit_app in Hw as [_ Hw]. apply withinLimit_app in Hw as [Hw _].
  pose proof (countSinceReset_nonneg pre _ Hc).
  destruct (resetFree_withinLimit seg _ Hw Hf); lia.
Qed.

End RateLimiterFacts.

Section RateLimiterSliding.
Import RateLimiter.

Variable cfg : config.
Variable from : Z.
Hypothesis window_positive : 0 < windowMs cfg.
Hypothesis limit_nonneg : 0 <= maxRequests cfg.

Lemma admissionsWithin_nil len : admissionsWithin from len [] = 0.
Proof. reflexivity. Qed.

Lemma admissionsWithin_cons len o log :
  admissionsWithin from len (o :: log) =
    (if decide (from <= fst o < from + len)
     then (if isAdmission o then 1 else 0) else 0)
    + admissionsWithin from len log.
Proof.
  unfold admissionsWithin. rewrite filter_cons.
  case_decide; [rewrite admissions_cons|]; lia.
Qed.

Lemma admissionsWithin_app len log1 log2 :
  admissionsWithin from len (log1 ++ log2) =
    admissionsWithin from len log1 + admissionsWithin from len log2.
Proof.
  induction log1 as [|o rest IH]; [reflexivity|].
  rewrite <- app_comm_cons, !admissionsWithin_cons, IH. lia.
Qed.

(** One run of [process] keeps the sliding invariant. *)
Lemma process_sliding now t l seen :
  t <= now -> slidingInv cfg from t l seen ->
  slidingInv cfg from now (after (process cfg now l))
    (seen + admissionsWithin from (windowMs cfg) (observe now (process cfg now l))).
Proof.
  intros Ht (Hw & Hc & Hs & H1 & H2 & H3 & H4).
  unfold process, observe, slidingInv.
  destruct (processing l && queueIsEmpty l).
  { cbn. rewrite Z.add_0_r. repeat split; auto; lia. }
  destruct (now - windowStart l >=? windowMs cfg) eqn:E;
    [apply Z.geb_le in E|rewrite Z.geb_leb in E; apply Z.leb_gt in E];
    destruct (queue l) as [|r rest]; cbn -[Z.add Z.mul admissionsWithin];
    try (destruct (_ <? maxRequests cfg) eqn:Ec;
         [apply Z.ltb_lt in Ec|apply Z.ltb_ge in Ec];
         cbn -[Z.add Z.mul admissionsWithin]);
    rewrite ?admissionsWithin_cons, ?admissionsWithin_nil;
    cbn -[Z.add Z.mul]; repeat case_decide; lia.
Qed.

Lemma step_sliding t l seen ev :
  t <= fst ev -> callsOnly [ev] -> slidingInv cfg from t l seen ->
  slidingInv cfg from (fst ev) (fst (step cfg l ev))
    (seen + admissionsWithin from (windowMs cfg) (snd (step cfg l ev))).
Proof.
  destruct ev as [now [who| |info]]; intros Ht Hc Hi; cbn [fst snd step].
  - apply (process_sliding now t
             {| queue := queue l ++ [who]; processing := processing l;
                requestCount := requestCount l; windowStart := windowStart l;
                lastRateLimitInfo := lastRateLimitInfo l |} seen Ht).
    exact Hi.
  - apply (process_sliding now t l seen Ht Hi).
  - inversion Hc as [|? ? Hev _]; subst. destruct Hev.
Qed.

Lemma run_sliding trace : forall t l seen,
  clockOk t trace -> callsOnly trace -> slidingInv cfg from t l seen ->
  slidingInv cfg from (lastTime t trace) (fst (run cfg l trace))
    (seen + admissionsWithin from (windowMs cfg) (snd (run cfg l trace))).
Proof.
  induction trace as [|[now c] rest IH]; intros t l seen Hclock Hcalls Hi.
  - cbn. rewrite Z.add_0_r. exact Hi.
  - destruct Hclock as [Ht Hclock]. inversion Hcalls as [|? ? Hev Hrest]; subst.
    pose proof (step_sliding t l seen (now, c) Ht) as Hstep.
    cbn [run lastTime fold_left fst].
    destruct (step cfg l (now, c)) as [l1 obs1].
    specialize (IH now l1 _ Hclock Hrest (Hstep ltac:(repeat constructor; exact Hev) Hi)).
    cbn [fst snd] in IH.
    destruct (run cfg l1 rest) as [l2 obs2]. cbn [fst snd] in *.
    rewrite admissionsWithin_app, Z.add_assoc. exact IH.
Qed.

(** Any interval of length [windowMs] sees at most twice [maxRequests]
    admissions: it can straddle one window reset, not two. *)
Lemma sliding_interval_twice t0 trace :
  clockOk t0 trace -> callsOnly trace ->
  admissionsWithin from (windowMs cfg) (snd (run cfg (create t0) trace))
    <= 2 * maxRequests cfg.
Proof.
  intros Hclock Hcalls.
  pose proof (run_sliding trace t0 (create t0) 0 Hclock Hcalls) as H.
  rewrite Z.add_0_l in H.
  destruct H as (_ & Hc & Hs & H1 & H2 & H3 & H4).
  - unfold slidingInv. cbn. lia.
  - set (w := windowStart (fst (run cfg (create t0) trace))) in *.
    destruct (Z_le_gt_dec (w + windowMs cfg) from); [lia|].
    destruct (Z_le_gt_dec w from); [lia|].
    destruct (Z_le_gt_dec (from + windowMs cfg) w); lia.
Qed.

End RateLimiterSliding.

Section RateLimiterClaims.
Import RateLimiter.

(** C1, as stated, fails: with one request allowed per 1000 ms, a caller
    admitted at 999 ms and another admitted at 1000 ms (where the fixed
    window restarts) are two admissions inside the interval
    [[999, 1999)]. *)
Lemma sliding_window_bound_fails :
  clockOk 0 acrossTheBoundary /\
  snd (run onePerSecond (create 0) acrossTheBoundary) =
    [(999, Admission 0%nat); (1000, WindowReset); (1000, Admission 1%nat)] /\
  ~ slidingWindowBound onePerSecond 0 acrossTheBoundary.
Proof.
  split; [simpl; lia|]. split; [reflexivity|].
  intros H. specialize (H 999).
  assert (E : admissionsWithin 999 (windowMs onePerSecond)
                (snd (run onePerSecond (create 0) acrossTheBoundary)) = 2)
    by (vm_compute; reflexivity).
  rewrite E in H. simpl in H. lia.
Qed.

(** C1, amended: the limiter counts in fixed windows.  Between two
    consecutive window resets the number of admissions never exceeds
    [maxRequests]; an interval of length [windowMs] can straddle one reset,
    so for [acquire()] calls and timer callbacks under a clock that does not
    run backwards it sees at most [2 * maxRequests] admissions.  A run of
    [process] resets the counter to 0 and the window start to [now] when
    [now - windowStart >= windowMs], admits only with the counter below
    [maxRequests], and adds one to the counter for the admission. *)
Theorem admissions_between_resets_bounded (cfg : config) (t0 : Z) (trace : list (Z * call)) :
  0 <= maxRequests cfg ->
  (forall pre seg post,
     snd (run cfg (create t0) trace) = pre ++ seg ++ post ->
     resetFree seg -> admissions seg <= maxRequests cfg) /\
  (0 < windowMs cfg -> clockOk t0 trace -> callsOnly trace ->
   forall from,
     admissionsWithin from (windowMs cfg) (snd (run cfg (create t0) trace))
       <= 2 * maxRequests cfg) /\
  (forall now l,
     processing l && queueIsEmpty l = false ->
     let p := process cfg now l in
     let expired := now - windowStart l >=? windowMs cfg in
     let count0 := if expired then 0 else requestCount l in
     windowReset p = expired /\
     windowStart (after p) = (if expired then now else windowStart l) /\
     (forall who, admitted p = Some who ->
        count0 < maxRequests cfg /\ requestCount (after p) = count0 + 1) /\
     (admitted p = None -> requestCount (after p) = count0)).
Proof.
  intros Hm. split; [|split].
  - intros pre seg post Hlog Hf.
    apply (segment_bounded cfg (create t0) trace pre seg post); auto.
    simpl. lia.
  - intros Hw Hclock Hcalls from.
    apply sliding_interval_twice; assumption.
  - intros now l Hgo. unfold process. rewrite Hgo.
    destruct (now - windowStart l >=? windowMs cfg); destruct (queue l) as [|r rest];
      cbn -[Z.add];
      try (destruct (_ <? maxRequests cfg) eqn:E; cbn -[Z.add];
           [apply Z.ltb_lt in E|]);
      repeat split; intros; try congruence; try assumption.
Qed.

Lemma admissions_between_resets_bounded_witness :
  0 <= maxRequests onePerSecond /\
  admissions [(1000, Admission 1%nat)] <= maxRequests onePerSecond /\
  admissionsWithin 999 (windowMs onePerSecond)
    (snd (run onePerSecond (create 0) acrossTheBoundary)) <= 2 * maxRequests onePerSecond.
Proof.
  assert (Hm : 0 <= maxRequests onePerSecond) by (simpl; lia).
  split; [exact Hm|].
  destruct (admissions_between_resets_bounded onePerSecond 0 acrossTheBoundary Hm)
    as (Hseg & Hslide & _).
  split.
  - apply (Hseg [(999, Admission 0%nat); (1000, WindowReset)] [(1000, Admission 1%nat)] []).
    + reflexivity.
    + repeat constructor.
  - apply Hslide.
    + simpl. lia.
    + simpl. lia.
    + repeat constructor.
Defined.

End RateLimiterClaims.

(** ** Retrying requester *)

Section HttpFacts.
Import Http.

Context {B : Type}.
Variable cfg : RetryConfig.
Variable hasLimiter : bool.
Variable fetch : Z -> FetchOutcome B.

Lemma retryable_fails (o : FetchOutcome B) : retryable o <-> attemptFails o = true.
Proof.
  unfold retryable, attemptFails, classify, ok. destruct o as [r|m]; [|tauto].
  destruct (status r =? 429) eqn:E1; [apply Z.eqb_eq in E1; tauto|].
  apply Z.eqb_neq in E1.
  destruct (status r >=? 500) eqn:E2.
  - apply Z.geb_le in E2.
    replace (status r <=? 299) with false by (symmetry; apply Z.leb_gt; lia).
    rewrite andb_false_r. simpl. split; auto.
  - rewrite andb_false_r. rewrite Z.geb_leb in E2. apply Z.leb_gt in E2.
    split; [intros [?|?]; lia|discriminate].
Qed.

(** A response that is neither a 429 nor a 5xx leaves the [try] block by
    [return response]. *)
Lemma classify_other (r : Response B) :
  status r <> 429 -> status r < 500 -> classify (Responded r) = inl r.
Proof.
  intros H1 H2. unfold classify.
  replace (status r =? 429) with false by (symmetry; apply Z.eqb_neq; assumption).
  replace (status r >=? 500) with false
    by (symmetry; rewrite Z.geb_leb; apply Z.leb_gt; assumption).
  rewrite andb_false_r. reflexivity.
Qed.

Lemma attemptsFrom_bound remaining : forall attempt lastError,
  (attemptsMade (attemptsFrom cfg hasLimiter fetch remaining attempt lastError)
     <= remaining)%nat.
Proof.
  induction remaining as [|n IH]; intros attempt lastError; simpl; [lia|].
  destruct (classify (fetch attempt)); simpl; [lia|].
  specialize (IH (attempt + 1) (Some s)). lia.
Qed.

Lemma attemptsFrom_returns remaining attempt lastError r :
  classify (fetch attempt) = inl r ->
  attemptsFrom cfg hasLimiter fetch (S remaining) attempt lastError =
    {| settled := inl r; attemptsMade := 1; slept := [];
       reported := reportOf hasLimiter (fetch attempt) |}.
Proof. intros H. simpl. rewrite H. reflexivity. Qed.

Lemma attemptsFrom_retries remaining attempt lastError :
  attemptFails (fetch attempt) = true ->
  let rest := attemptsFrom cfg hasLimiter fetch remaining (attempt + 1)
                (Some (errorOf (fetch attempt))) in
  attemptsFrom cfg hasLimiter fetch (S remaining) attempt lastError =
    {| settled := settled rest;
       attemptsMade := S (attemptsMade rest);
       slept := (if attempt <? maxRetries cfg
                 then [retryDelay cfg attempt (errorOf (fetch attempt))] else [])
                ++ slept rest;
       reported := reportOf hasLimiter (fetch attempt) ++ reported rest |}.
Proof.
  unfold attemptFails, errorOf. intros H. simpl.
  destruct (classify (fetch attempt)); [discriminate|reflexivity].
Qed.

(** When every attempt fails the loop runs to the end and throws the last
    error it has seen. *)
Lemma attemptsFrom_exhausted remaining : forall attempt lastError,
  (forall k, (k < remaining)%nat -> attemptFails (fetch (attempt + Z.of_nat k)) = true) ->
  let run := attemptsFrom cfg hasLimiter fetch remaining attempt lastError in
  attemptsMade run = remaining /\
  settled run =
    inr (match remaining with
         | O => default "Request failed"%string lastError
         | S m => errorOf (fetch (attempt + Z.of_nat m))
         end) /\
  slept run = delaysOf cfg fetch attempt (Z.of_nat remaining).
Proof.
  induction remaining as [|n IH]; intros attempt lastError Hall; [simpl; auto|].
  assert (H0 : attemptFails (fetch attempt) = true).
  { specialize (Hall 0%nat). rewrite Z.add_0_r in Hall. apply Hall. lia. }
  cbv zeta. rewrite attemptsFrom_retries by assumption. cbn [attemptsMade settled slept].
  destruct (IH (attempt + 1) (Some (errorOf (fetch attempt)))) as (Ha & Hs & Hd).
  { intros k Hk. replace (attempt + 1 + Z.of_nat k) with (attempt + Z.of_nat (S k)) by lia.
    apply Hall. lia. }
  rewrite Ha, Hs, Hd. split; [reflexivity|]. split.
  - f_equal. destruct n as [|m]; simpl default.
    + f_equal. f_equal. lia.
    + f_equal. f_equal. lia.
  - unfold delaysOf. rewrite (seqZ_cons attempt (Z.of_nat (S n))) by lia.
    simpl. rewrite Z.add_1_r. f_equal. f_equal. f_equal. lia.
Qed.

End HttpFacts.

Section HttpClaims.
Import Http.

(** C3, as stated, fails: a persistent 404 is not retried.  With the
    default budget of 4 attempts, [fetchWithRetry] calls [fetch] once and
    returns the 404 response to its caller. *)
Lemma not_found_is_not_retried :
  let run := fetchWithRetry defaultRetryConfig false (always 404) in
  ok (plain 404 tt) = false /\
  attemptsMade run = 1%nat /\
  attemptsMade run <> Z.to_nat (maxRetries defaultRetryConfig + 1) /\
  settled run = inl (plain 404 tt).
Proof. repeat split. vm_compute. discriminate. Qed.

(** C3, amended: transport failures, 429 responses and responses with a
    status of 500 or more are retried up to the attempt budget
    ([maxRetries + 1] attempts, the last error being thrown), with a delay
    after every attempt but the last, the delay alone depending on the
    kind of error; any other response, including a non-success one such as
    404 or 400, is returned at once: one attempt, no retry, no delay. *)
Theorem errors_retried_other_responses_returned
    {B : Type} (cfg : RetryConfig) (hasLimiter : bool) (fetch : Z -> FetchOutcome B) :
  0 <= maxRetries cfg ->
  let run := fetchWithRetry cfg hasLimiter fetch in
  ((forall a, 0 <= a <= maxRetries cfg -> retryable (fetch a)) ->
     attemptsMade run = Z.to_nat (maxRetries cfg + 1) /\
     settled run = inr (errorOf (fetch (maxRetries cfg))) /\
     slept run = delaysOf cfg fetch 0 (maxRetries cfg + 1)) /\
  (forall r, fetch 0 = Responded r -> status r <> 429 -> status r < 500 ->
     settled run = inl r /\ attemptsMade run = 1%nat /\ slept run = []).
Proof.
  intros Hm run. subst run. unfold fetchWithRetry. split.
  - intros Hall.
    destruct (attemptsFrom_exhausted cfg hasLimiter fetch
                (Z.to_nat (maxRetries cfg + 1)) 0 None) as (Ha & Hs & Hd).
    { intros k Hk. apply retryable_fails. apply Hall. lia. }
    rewrite Ha, Hs, Hd. split; [reflexivity|]. split.
    + destruct (Z.to_nat (maxRetries cfg + 1)) as [|m] eqn:E; [lia|].
      do 3 f_equal. lia.
    + f_equal. lia.
  - intros r Hr H429 H500.
    destruct (Z.to_nat (maxRetries cfg + 1)) as [|m] eqn:E; [lia|].
    rewrite (attemptsFrom_returns cfg hasLimiter fetch m 0 None r).
    + auto.
    + rewrite Hr. apply classify_other; assumption.
Qed.

Lemma errors_retried_other_responses_returned_witness :
  attemptsMade (fetchWithRetry defaultRetryConfig false (always 503)) = 4%nat /\
  settled (fetchWithRetry defaultRetryConfig false (always 400)) = inl (plain 400 tt).
Proof.
  assert (Hm : 0 <= maxRetries defaultRetryConfig) by (simpl; lia).
  split.
  - destruct (errors_retried_other_responses_returned
                defaultRetryConfig false (always 503) Hm) as [H _].
    destruct H as (Ha & _).
    + intros a _. right. simpl. lia.
    + exact Ha.
  - destruct (errors_retried_other_responses_returned
                defaultRetryConfig false (always 400) Hm) as [_ H].
    destruct (H (plain 400 tt) eq_refl) as (Hs & _).
    + simpl. lia.
    + simpl. lia.
    + exact Hs.
Defined.

(** C4: [fetchWithRetry] calls [fetch] at most [maxRetries + 1] times;
    when every attempt fails it throws the error of the last attempt,
    after exactly [maxRetries + 1] attempts; with [maxRetries = 3], two 500
    responses and then a success give exactly 3 attempts and the
    successful response; with [maxRetries = 1] and 500 responses
    throughout it throws "Server error: 500" after exactly 2 attempts. *)
Theorem at_most_maxRetries_plus_one_attempts
    {B : Type} (cfg : RetryConfig) (hasLimiter : bool) (fetch : Z -> FetchOutcome B) :
  let run := fetchWithRetry cfg hasLimiter fetch in
  (attemptsMade run <= Z.to_nat (maxRetries cfg + 1))%nat /\
  (0 <= maxRetries cfg ->
   (forall a, 0 <= a <= maxRetries cfg -> attemptFails (fetch a) = true) ->
     attemptsMade run = Z.to_nat (maxRetries cfg + 1) /\
     settled run = inr (errorOf (fetch (maxRetries cfg)))) /\
  (maxRetries cfg = 3 ->
   forall r0 r1 r2,
     fetch 0 = Responded r0 -> status r0 = 500 ->
     fetch 1 = Responded r1 -> status r1 = 500 ->
     fetch 2 = Responded r2 -> ok r2 = true ->
     attemptsMade run = 3%nat /\ settled run = inl r2) /\
  (maxRetries cfg = 1 ->
   (forall a, exists r, fetch a = Responded r /\ status r = 500) ->
     attemptsMade run = 2%nat /\ settled run = inr "Server error: 500"%string).
Proof.
  intros run. subst run. unfold fetchWithRetry.
  split; [apply attemptsFrom_bound|]. split; [|split].
  - intros Hm Hall.
    destruct (attemptsFrom_exhausted cfg hasLimiter fetch
                (Z.to_nat (maxRetries cfg + 1)) 0 None) as (Ha & Hs & _).
    { intros k Hk. apply Hall. lia. }
    rewrite Ha, Hs. split; [reflexivity|].
    destruct (Z.to_nat (maxRetries cfg + 1)) as [|m] eqn:E; [lia|].
    do 3 f_equal. lia.
  - intros Hm r0 r1 r2 H0 S0 H1 S1 H2 S2. rewrite Hm.
    change (Z.to_nat (3 + 1)) with 4%nat.
    assert (C0 : classify (fetch 0) = inr "Server error: 500"%string).
    { rewrite H0. unfold classify, ok. rewrite S0. reflexivity. }
    assert (C1 : classify (fetch 1) = inr "Server error: 500"%string).
    { rewrite H1. unfold classify, ok. rewrite S1. reflexivity. }
    assert (C2 : classify (fetch 2) = inl r2).
    { rewrite H2. unfold ok in S2. apply andb_true_iff in S2 as [Sa Sb].
      apply Z.leb_le in Sa, Sb. apply classify_other; lia. }
    assert (F0 : attemptFails (fetch 0) = true) by (unfold attemptFails; rewrite C0; reflexivity).
    assert (F1 : attemptFails (fetch 1) = true) by (unfold attemptFails; rewrite C1; reflexivity).
    rewrite (attemptsFrom_retries cfg hasLimiter fetch 3 0 None F0).
    cbn [settled attemptsMade]. change (0 + 1) with 1.
    rewrite (attemptsFrom_retries cfg hasLimiter fetch 2 1 _ F1).
    cbn [settled attemptsMade]. change (1 + 1) with 2.
    rewrite (attemptsFrom_returns cfg hasLimiter fetch 1 2 _ r2 C2).
    cbn [settled attemptsMade]. auto.
  - intros Hm Hall. rewrite Hm. change (Z.to_nat (1 + 1)) with 2%nat.
    assert (C : forall a, classify (fetch a) = inr "Server error: 500"%string).
    { intros a. destruct (Hall a) as (r & Hr & Sr).
      rewrite Hr. unfold classify, ok. rewrite Sr. reflexivity. }
    assert (F : forall a, attemptFails (fetch a) = true)
      by (intros a; unfold attemptFails; rewrite C; reflexivity).
    rewrite (attemptsFrom_retries cfg hasLimiter fetch 1 0 None (F 0)).
    cbn [settled attemptsMade]. change (0 + 1) with 1.
    rewrite (attemptsFrom_retries cfg hasLimiter fetch 0 1 _ (F 1)).
    cbn [settled attemptsMade attemptsFrom default]. unfold errorOf. rewrite C. auto.
Qed.

Lemma at_most_maxRetries_plus_one_attempts_witness :
  (attemptsMade (fetchWithRetry defaultRetryConfig false twiceThenOk) = 3%nat /\
   settled (fetchWithRetry defaultRetryConfig false twiceThenOk) = inl (plain 200 tt)) /\
  (attemptsMade (fetchWithRetry
                   {| maxRetries := 1; baseDelayMs := 1000; maxDelayMs := 10000 |}
                   false (always 500)) = 2%nat /\
   settled (fetchWithRetry
              {| maxRetries := 1; baseDelayMs := 1000; maxDelayMs := 10000 |}
              false (always 500)) = inr "Server error: 500"%string).
Proof.
  split.
  - destruct (at_most_maxRetries_plus_one_attempts defaultRetryConfig false twiceThenOk)
      as (_ & _ & H & _).
    apply (H eq_refl (plain 500 tt) (plain 500 tt) (plain 200 tt)); reflexivity.
  - destruct (at_most_maxRetries_plus_one_attempts
                {| maxRetries := 1; baseDelayMs := 1000; maxDelayMs := 10000 |}
                false (always 500)) as (_ & H1 & _ & H).
    apply (H eq_refl). intros a. exists (plain 500 tt). split; reflexivity.
Defined.

End HttpClaims.

(** ** Cache *)

Section CacheClaims.
Import Service.

Context {V : Type}.
Implicit Types (cache : gmap string (entry V)) (key : string) (v : V).

Lemma getFromCache_fresh now key cache cached :
  cache !! key = Some cached -> now < expires cached ->
  getFromCache now key cache = (Some (data cached), cache).
Proof.
  intros Hk Hlt. unfold getFromCache. rewrite Hk.
  replace (expires cached >? now) with true
    by (symmetry; rewrite Z.gtb_ltb; apply Z.ltb_lt; assumption).
  reflexivity.
Qed.

Lemma getFromCache_stale now key cache cached :
  cache !! key = Some cached -> expires cached <= now ->
  getFromCache now key cache = (None, delete key cache).
Proof.
  intros Hk Hle. unfold getFromCache. rewrite Hk.
  replace (expires cached >? now) with false
    by (symmetry; rewrite Z.gtb_ltb; apply Z.ltb_ge; assumption).
  reflexivity.
Qed.

(** C9: [setCache] stores the value with [expires = now + 60000]; a
    [getFromCache] of the key before that time returns the value and keeps
    the entry; a [getFromCache] of any stored key at or after its expiry
    returns [null] and deletes the entry, so that it is gone afterwards. *)
Theorem cache_set_get_expire now key v cache :
  CACHE_TTL = 60000 /\
  setCache now key v cache !! key = Some {| data := v; expires := now + CACHE_TTL |} /\
  (forall later, later < now + CACHE_TTL ->
     getFromCache later key (setCache now key v cache)
       = (Some v, setCache now key v cache)) /\
  (forall later (stored : gmap string (entry V)) (cached : entry V),
     stored !! key = Some cached -> expires cached <= later ->
     fst (getFromCache later key stored) = None /\
     snd (getFromCache later key stored) !! key = None /\
     forall other, other <> key ->
       snd (getFromCache later key stored) !! other = stored !! other) /\
  (forall later, now + CACHE_TTL <= later ->
     fst (getFromCache later key (setCache now key v cache)) = None /\
     snd (getFromCache later key (setCache now key v cache)) !! key = None).
Proof.
  assert (Hset : setCache now key v cache !! key
                 = Some {| data := v; expires := now + CACHE_TTL |})
    by (unfold setCache; apply lookup_insert_eq).
  split; [reflexivity|]. split; [exact Hset|]. split; [|split].
  - intros later Hlt.
    rewrite (getFromCache_fresh later key _ _ Hset); [reflexivity|exact Hlt].
  - intros later stored cached Hk Hle.
    rewrite (getFromCache_stale later key stored cached Hk Hle). cbn [fst snd].
    split; [reflexivity|]. split; [apply lookup_delete_eq|].
    intros other Hne. apply lookup_delete_ne. congruence.
  - intros later Hle.
    rewrite (getFromCache_stale later key _ _ Hset) by exact Hle. cbn [fst snd].
    split; [reflexivity|apply lookup_delete_eq].
Qed.

End CacheClaims.

Lemma cache_set_get_expire_witness :
  Service.getFromCache 1059999 "listedAssets"
    (Service.setCache 1000000 "listedAssets" 7%nat ∅)
    = (Some 7%nat, Service.setCache 1000000 "listedAssets" 7%nat ∅) /\
  fst (Service.getFromCache 1060000 "listedAssets"
         (Service.setCache 1000000 "listedAssets" 7%nat ∅)) = None.
Proof.
  destruct (cache_set_get_expire 1000000 "listedAssets" 7%nat ∅)
    as (_ & _ & Hfresh & _ & Hstale).
  split.
  - apply Hfresh. unfold Service.CACHE_TTL. lia.
  - apply Hstale. unfold Service.CACHE_TTL. lia.
Defined.

(** ** Liquidity-depth search *)

Section SearchFacts.
Import Service.

Variable quote : Z -> option Z.
Variable route : Route.

(** The midpoint of an ordered, non-negative interval lies inside it. *)
Lemma midpoint_between low high :
  0 <= low <= high -> low <= Z.quot (low + high) 2 <= high.
Proof.
  intros H. rewrite Z.quot_div_nonneg by lia.
  split.
  - apply Z.div_le_lower_bound; lia.
  - apply Z.div_le_upper_bound; lia.
Qed.

(** The result stays inside the interval the search is started on. *)
Lemma search_between budget iterations : forall low high,
  0 <= low <= high ->
  low <= search quote route budget iterations low high <= high.
Proof.
  induction iterations as [|n IH]; intros low high H; simpl; [lia|].
  pose proof (midpoint_between low high H) as Hmid.
  set (mid := Z.quot (low + high) 2) in *.
  destruct ((mid =? low) || (mid =? high)); [lia|].
  destruct (quote mid) as [out|].
  - destruct (calculateSlippage route mid out <=? budget).
    + specialize (IH mid high). lia.
    + specialize (IH low mid). lia.
  - specialize (IH low mid). lia.
Qed.

(** A larger budget never gives a smaller result: the two searches probe
    the same midpoints until one probe is within the larger budget only,
    and from there on the search with the larger budget works above that
    midpoint and the other one below it. *)
Lemma search_monotone budgetA budgetB iterations : forall low high,
  budgetA <= budgetB -> 0 <= low <= high ->
  search quote route budgetA iterations low high
    <= search quote route budgetB iterations low high.
Proof.
  induction iterations as [|n IH]; intros low high HAB H; simpl; [lia|].
  pose proof (midpoint_between low high H) as Hmid.
  set (mid := Z.quot (low + high) 2) in *.
  destruct ((mid =? low) || (mid =? high)); [lia|].
  destruct (quote mid) as [out|]; [|apply IH; lia].
  destruct (calculateSlippage route mid out <=? budgetA) eqn:EA;
    destruct (calculateSlippage route mid out <=? budgetB) eqn:EB.
  - apply IH; lia.
  - apply Z.leb_le in EA. apply Z.leb_gt in EB. lia.
  - pose proof (search_between budgetA n low mid).
    pose proof (search_between budgetB n mid high). lia.
  - apply IH; lia.
Qed.

(** With every probe feasible the search is the plain climb. *)
Lemma search_all_feasible budget iterations : forall low high,
  (forall mid, exists out,
      quote mid = Some out /\ calculateSlippage route mid out <= budget) ->
  search quote route budget iterations low high = climb iterations low high.
Proof.
  induction iterations as [|n IH]; intros low high Hall; simpl; [reflexivity|].
  destruct ((_ =? low) || (_ =? high)); [reflexivity|].
  destruct (Hall (Z.quot (low + high) 2)) as (out & Hq & Hs).
  rewrite Hq. apply Z.leb_le in Hs. rewrite Hs. apply IH. assumption.
Qed.

(** With no probe feasible the search never leaves its lower end. *)
Lemma search_none_feasible budget iterations : forall low high,
  (forall mid out, quote mid = Some out -> budget < calculateSlippage route mid out) ->
  search quote route budget iterations low high = low.
Proof.
  induction iterations as [|n IH]; intros low high Hnone; simpl; [reflexivity|].
  destruct ((_ =? low) || (_ =? high)); [reflexivity|].
  destruct (quote (Z.quot (low + high) 2)) as [out|] eqn:Hq; [|apply IH; assumption].
  apply Hnone in Hq. apply Z.leb_gt in Hq. rewrite Hq. apply IH. assumption.
Qed.

(** The ideal output has no slippage. *)
Lemma ideal_slippage amountIn :
  calculateSlippage route amountIn (expectedOut route amountIn) = 0.
Proof.
  unfold calculateSlippage.
  destruct (expectedOut route amountIn =? 0) eqn:E; [reflexivity|].
  apply Z.eqb_neq in E.
  rewrite Z.sub_diag, Z.mul_0_l, Z.quot_0_l by assumption. reflexivity.
Qed.

End SearchFacts.

Section SearchClaims.
Import Service.

(** C5, as stated, fails: with ideal quotes and a budget of 50 bps the
    search on the USDC route returns 9999999701976776123, not 10^19. *)
Lemma ideal_quotes_do_not_reach_upper_bound :
  findMaxAmountForSlippage (idealQuote ethereumToPolygon) ethereumToPolygon 50
    = 9999999701976776123 /\
  findMaxAmountForSlippage (idealQuote ethereumToPolygon) ethereumToPolygon 50
    <> UPPER_BOUND.
Proof. split; [vm_compute; reflexivity|vm_compute; discriminate]. Qed.

(** Under a negative budget even the ideal output is over budget, and the
    search returns 0. *)
Lemma ideal_quotes_negative_budget (route : Route) (slippageBps : Z) :
  slippageBps < 0 ->
  findMaxAmountForSlippage (idealQuote route) route slippageBps = 0.
Proof.
  intros Hb. unfold findMaxAmountForSlippage. apply search_none_feasible.
  intros mid out Hq. injection Hq as <-. rewrite ideal_slippage. assumption.
Qed.

(** C5, amended: with a quote function that returns the ideal output for
    every probed amount, and any budget that is not negative, the search
    raises [low] to the midpoint in each of its 25 iterations and returns
    9999999701976776123, which is [UPPER_BOUND] minus 298023223877 (the
    width left after 25 halvings), for every route. *)
Theorem ideal_quotes_climb_25_halvings (route : Route) (slippageBps : Z) :
  0 <= slippageBps ->
  findMaxAmountForSlippage (idealQuote route) route slippageBps = 9999999701976776123 /\
  findMaxAmountForSlippage (idealQuote route) route slippageBps
    = UPPER_BOUND - 298023223877.
Proof.
  intros Hb. unfold findMaxAmountForSlippage.
  rewrite search_all_feasible.
  - split; vm_compute; reflexivity.
  - intros mid. exists (expectedOut route mid). split; [reflexivity|].
    rewrite ideal_slippage. assumption.
Qed.

Lemma ideal_quotes_climb_25_halvings_witness :
  findMaxAmountForSlippage (idealQuote ethereumToPolygon) ethereumToPolygon 100
    = 9999999701976776123.
Proof.
  apply (ideal_quotes_climb_25_halvings ethereumToPolygon 100). lia.
Defined.

(** C8: for every route, every quote function and budgets [A < B], the
    search with budget [A] returns at most what the search with budget [B]
    returns. *)
Theorem findMaxAmountForSlippage_monotone
    (quote : Z -> option Z) (route : Route) (A B : Z) :
  A < B ->
  findMaxAmountForSlippage quote route A <= findMaxAmountForSlippage quote route B.
Proof.
  intros HAB. unfold findMaxAmountForSlippage.
  apply search_monotone; [lia|]. unfold UPPER_BOUND. lia.
Qed.

Lemma findMaxAmountForSlippage_monotone_witness :
  findMaxAmountForSlippage feeModelQuote ethereumToPolygon 50
    <= findMaxAmountForSlippage feeModelQuote ethereumToPolygon 100.
Proof.
  apply (findMaxAmountForSlippage_monotone feeModelQuote ethereumToPolygon 50 100). lia.
Defined.

End SearchClaims.

(** ** Rate arithmetic *)

Section RateMathClaims.
Import Service.

(** C10: [calculateEffectiveRate] is 0 when [amountIn] is 0 and otherwise
    the quotient [(amountOut / 10^decimalsOut) / (amountIn / 10^decimalsIn)]
    of the normalised amounts, computed in binary64; for 10^18 units of an
    18-decimal token against 2 * 10^6 units of a 6-decimal token the
    result is the double 2.0 exactly. *)
Theorem effective_rate_formula (amountIn amountOut : Z) (decimalsIn decimalsOut : nat) :
  calculateEffectiveRate amountIn amountOut decimalsIn decimalsOut
    = effectiveRateFormula amountIn amountOut decimalsIn decimalsOut /\
  (amountIn = 0 ->
     calculateEffectiveRate amountIn amountOut decimalsIn decimalsOut = S754_zero false) /\
  (amountIn <> 0 ->
     calculateEffectiveRate amountIn amountOut decimalsIn decimalsOut
       = fdiv (fdiv (Number amountOut) (pow10 decimalsOut))
              (fdiv (Number amountIn) (pow10 decimalsIn))) /\
  calculateEffectiveRate (10 ^ 18) (2 * 10 ^ 6) 18 6 = Number 2 /\
  fractionOf (calculateEffectiveRate (10 ^ 18) (2 * 10 ^ 6) 18 6) = Some (2 * 2 ^ 51, 2 ^ 51).
Proof.
  split; [|split; [|split; [|split]]].
  - unfold calculateEffectiveRate, effectiveRateFormula.
    destruct amountIn; reflexivity.
  - intros ->. reflexivity.
  - intros Hne. unfold calculateEffectiveRate.
    destruct (amountIn =? 0) eqn:E; [apply Z.eqb_eq in E; contradiction|reflexivity].
  - vm_compute. reflexivity.
  - vm_compute. reflexivity.
Qed.

Lemma effective_rate_formula_witness :
  calculateEffectiveRate 0 997500 6 6 = S754_zero false /\
  calculateEffectiveRate 1000000 997500 6 6
    = fdiv (fdiv (Number 997500) (pow10 6)) (fdiv (Number 1000000) (pow10 6)).
Proof.
  split.
  - destruct (effective_rate_formula 0 997500 6 6) as (_ & H & _). apply H. reflexivity.
  - destruct (effective_rate_formula 1000000 997500 6 6) as (_ & _ & H & _).
    apply H. discriminate.
Defined.

End RateMathClaims.

(** ** Rates and their fallback *)

Section RatesFacts.
Import Service.

Variable retryConfig : Http.RetryConfig.

(** [fetchWithRetry] looks at the network only through the attempts. *)
Lemma attemptsFrom_ext {B} cfg hasLimiter (f g : Z -> Http.FetchOutcome B) remaining :
  (forall a, f a = g a) ->
  forall attempt lastError,
    Http.attemptsFrom cfg hasLimiter f remaining attempt lastError
      = Http.attemptsFrom cfg hasLimiter g remaining attempt lastError.
Proof.
  intros Hfg. induction remaining as [|n IH]; intros attempt lastError; simpl.
  - reflexivity.
  - rewrite Hfg. destruct (Http.classify (g attempt)); [reflexivity|].
    rewrite IH. reflexivity.
Qed.

Lemma firstQuote_ext (net net' : Network) route notional endpoints :
  (forall endpoint attempt,
      net' endpoint route notional attempt = net endpoint route notional attempt) ->
  firstQuote retryConfig net' route notional endpoints
    = firstQuote retryConfig net route notional endpoints.
Proof.
  intros Hn. induction endpoints as [|endpoint rest IH]; simpl; [reflexivity|].
  unfold Http.fetchWithRetry.
  rewrite (attemptsFrom_ext _ _ (net' endpoint route notional)
             (net endpoint route notional)) by apply Hn.
  rewrite IH. reflexivity.
Qed.

Lemma rateEntry_ext (net net' : Network) (item : Route * Notional) :
  (forall endpoint attempt,
      net' endpoint item.1 item.2 attempt = net endpoint item.1 item.2 attempt) ->
  rateEntry retryConfig net' item = rateEntry retryConfig net item.
Proof.
  intros Hn. unfold rateEntry, getSingleRate.
  rewrite (firstQuote_ext net net') by assumption. reflexivity.
Qed.

(** No endpoint that fails leaves a quote behind. *)
Lemma firstQuote_failing net route notional endpoints :
  allEndpointsFail retryConfig net route notional ->
  firstQuote retryConfig net route notional endpoints = None.
Proof.
  intros Hall. induction endpoints as [|endpoint rest IH]; simpl; [reflexivity|].
  specialize (Hall endpoint). unfold endpointFails in Hall.
  destruct (Http.settled _) as [response|message]; [|exact IH].
  destruct (Http.ok response); [|exact IH].
  destruct (Http.body response); simpl in Hall; try discriminate. exact IH.
Qed.

(** When every attempt ends in an error, every endpoint fails. *)
Lemma unavailable_allEndpointsFail net route notional :
  unavailable net route notional -> allEndpointsFail retryConfig net route notional.
Proof.
  intros Hun endpoint. unfold endpointFails, Http.fetchWithRetry.
  destruct (attemptsFrom_exhausted (oneRetry retryConfig) false
              (net endpoint route notional)
              (Z.to_nat (Http.maxRetries (oneRetry retryConfig) + 1)) 0 None)
    as (_ & Hs & _).
  { intros k _. apply Hun. }
  rewrite Hs. reflexivity.
Qed.

Lemma createFallbackRate_digits route n :
  createFallbackRate route (Digits n) =
    Some {| rateSource := source route;
            rateDestination := destination route;
            amountIn := Digits n;
            rateAmountOut := Z.quot (n * 9975) 10000;
            effectiveRate :=
              calculateEffectiveRate n (Z.quot (n * 9975) 10000)
                (decimals (source route)) (decimals (destination route));
            totalFeesUsd := calculateFeeUsd n (source route) |}.
Proof. reflexivity. Qed.

(** Without a live quote, [getSingleRate] returns the rate that
    [createFallbackRate] builds. *)
Lemma getSingleRate_without_quote net route n :
  firstQuote retryConfig net route (Digits n) quoteEndpoints = None ->
  getSingleRate retryConfig net route (Digits n) = createFallbackRate route (Digits n).
Proof.
  intros Hq. unfold getSingleRate. rewrite Hq, createFallbackRate_digits.
  cbn -[calculateFeeUsd calculateEffectiveRate Z.quot Z.mul].
  destruct (truthyNumber (calculateFeeUsd n (source route))); reflexivity.
Qed.

Lemma rateEntry_wellFormed net (item : Route * Notional) :
  wellFormed item.2 -> is_Some (rateEntry retryConfig net item).
Proof.
  destruct item as [route [n|s]]; intros [z Hz]; [|discriminate].
  unfold rateEntry. cbn [fst snd].
  destruct (getSingleRate retryConfig net route (Digits n)); [eauto|].
  rewrite createFallbackRate_digits. eauto.
Qed.

Lemma batch_cons route routes notionals :
  batch (route :: routes) notionals
    = ((fun notional => (route, notional)) <$> notionals) ++ batch routes notionals.
Proof.
  unfold batch. rewrite bind_cons. f_equal.
Qed.

Lemma batch_length routes notionals :
  length (batch routes notionals) = (length routes * length notionals)%nat.
Proof.
  induction routes as [|route rest IH]; [reflexivity|].
  rewrite batch_cons, length_app, length_fmap, IH. simpl. lia.
Qed.

Lemma batch_notional routes notionals (item : Route * Notional) :
  item ∈ batch routes notionals -> item.2 ∈ notionals.
Proof.
  induction routes as [|route rest IH]; intros Hin.
  - inversion Hin.
  - rewrite batch_cons in Hin. apply elem_of_app in Hin as [Hin|Hin]; [|auto].
    apply list_elem_of_fmap in Hin as (notional & -> & Hn). exact Hn.
Qed.

End RatesFacts.

Section RatesClaims.
Import Service.

(** The fallback rate for a notional of 1000000 on the USDC route. *)
Lemma fallback_for_one_million :
  createFallbackRate ethereumToPolygon (Digits 1000000) = Some fallbackMillion.
Proof. vm_compute. reflexivity. Qed.

(** A notional that [BigInt] rejects has no entry, live or fallback: both
    [getSingleRate] and [createFallbackRate] throw on it, whatever the
    network does. *)
Lemma malformed_notional_has_no_entry
    (retryConfig : Http.RetryConfig) (net : Network) (route : Route) (s : string) :
  rateEntry retryConfig net (route, Malformed s) = None.
Proof.
  unfold rateEntry, getSingleRate. cbn [fst snd].
  destruct (firstQuote retryConfig net route (Malformed s) quoteEndpoints); reflexivity.
Qed.

(** C7: for a batch of well-formed notionals [getRates] returns one rate
    per route and notional and never rejects.  Where every quote endpoint
    fails for a route and a notional [n >= 0], the entry is the rate of
    [createFallbackRate]: its [amountOut] is [n * 9975 / 10000] rounded
    down and its [totalFeesUsd] is the fee of the 25 bps model, that is
    the notional in whole tokens, [n / 10^decimals], valued 1:1 in USD and
    multiplied by [25 / 10000], in binary64.  For a notional of 1000000
    the [amountOut] is 997500 and, on a source asset of 6 decimals, the fee
    is the double 0.0025.  An entry only depends on what the network does
    for its own route and notional, so the failure of one route leaves the
    entries of the others as they are. *)
Theorem unavailable_quotes_fall_back
    (retryConfig : Http.RetryConfig) (net : Network)
    (routes : list Route) (notionals : list Notional) :
  Forall wellFormed notionals ->
  exists rates,
    getRates retryConfig net routes notionals = Some rates /\
    length rates = (length routes * length notionals)%nat /\
    (forall i route n,
       batch routes notionals !! i = Some (route, Digits n) ->
       0 <= n ->
       allEndpointsFail retryConfig net route (Digits n) ->
       exists rate,
         rates !! i = Some rate /\
         createFallbackRate route (Digits n) = Some rate /\
         amountIn rate = Digits n /\
         rateAmountOut rate = n * 9975 / 10000 /\
         totalFeesUsd rate = calculateFeeUsd n (source route) /\
         totalFeesUsd rate =
           fmul (fmul (fdiv (Number n) (pow10 (decimals (source route)))) (Number 1))
                (fdiv (Number 25) (Number 10000)) /\
         (n = 1000000 ->
          rateAmountOut rate = 997500 /\
          (decimals (source route) = 6%nat ->
           totalFeesUsd rate = S754_finite false 5764607523034235 (-61)))) /\
    (forall (net' : Network) i item,
       batch routes notionals !! i = Some item ->
       (forall endpoint attempt,
           net' endpoint item.1 item.2 attempt = net endpoint item.1 item.2 attempt) ->
       exists rates',
         getRates retryConfig net' routes notionals = Some rates' /\
         rates' !! i = rates !! i).
Proof.
  intros Hwf.
  assert (Hsome : forall net0 : Network,
             is_Some (getRates retryConfig net0 routes notionals)).
  { intros net0. apply mapM_is_Some_2. apply Forall_forall. intros item Hin.
    apply rateEntry_wellFormed.
    rewrite Forall_forall in Hwf. apply Hwf.
    apply (batch_notional routes notionals item Hin). }
  destruct (Hsome net) as [rates Hrates]. exists rates.
  pose proof (mapM_Some_1 _ _ _ Hrates) as Hall.
  split; [exact Hrates|]. split; [|split].
  - rewrite <- (Forall2_length _ _ _ Hall). apply batch_length.
  - intros i route n Hi Hn Hfail.
    destruct (Forall2_lookup_l _ _ _ i _ Hall Hi) as (rate & Hr & He).
    exists rate. split; [exact Hr|].
    unfold rateEntry in He. cbn [fst snd] in He.
    rewrite getSingleRate_without_quote in He
      by (apply firstQuote_failing; exact Hfail).
    rewrite createFallbackRate_digits in He.
    assert (Hc : createFallbackRate route (Digits n) = Some rate)
      by (rewrite createFallbackRate_digits; exact He).
    split; [exact Hc|].
    injection He as <-. cbn [amountIn rateAmountOut totalFeesUsd].
    split; [reflexivity|]. split; [apply Z.quot_div_nonneg; lia|].
    split; [reflexivity|]. split; [reflexivity|].
    intros ->. split; [reflexivity|].
    intros Hdec. unfold calculateFeeUsd. rewrite Hdec. vm_compute. reflexivity.
  - intros net' i item Hi Hsame.
    destruct (Hsome net') as [rates' Hrates']. exists rates'.
    split; [exact Hrates'|].
    pose proof (mapM_Some_1 _ _ _ Hrates') as Hall'.
    destruct (Forall2_lookup_l _ _ _ i _ Hall Hi) as (rate & Hr & He).
    destruct (Forall2_lookup_l _ _ _ i _ Hall' Hi) as (rate' & Hr' & He').
    rewrite (rateEntry_ext retryConfig net net' item Hsame) in He'.
    rewrite Hr, Hr'. congruence.
Qed.

Lemma unavailable_quotes_fall_back_witness :
  exists rates,
    getRates serviceRetryConfig down [ethereumToPolygon] [Digits 1000000] = Some rates /\
    exists rate,
      rates !! 0%nat = Some rate /\ rateAmountOut rate = 997500 /\
      totalFeesUsd rate = S754_finite false 5764607523034235 (-61).
Proof.
  assert (Hwf : Forall wellFormed [Digits 1000000]).
  { constructor; [exists 1000000; reflexivity|constructor]. }
  destruct (unavailable_quotes_fall_back serviceRetryConfig down
              [ethereumToPolygon] [Digits 1000000] Hwf)
    as (rates & Hrates & _ & Hfall & _).
  exists rates. split; [exact Hrates|].
  destruct (Hfall 0%nat ethereumToPolygon 1000000 eq_refl)
    as (rate & Hr & _ & _ & _ & _ & _ & Hmillion).
  - lia.
  - intros endpoint. vm_compute. reflexivity.
  - destruct (Hmillion eq_refl) as [Ho Hfee].
    exists rate. split; [exact Hr|]. split; [exact Ho|]. apply Hfee. reflexivity.
Defined.

End RatesClaims.

(** * Further properties *)

(** ** Circuit breaker: tripping, recovery, invariants *)

Section CircuitBreakerMore.
Import CircuitBreaker.

Variable cfg : CircuitBreakerConfig.

Lemma execute_failure_closed now doneAt b :
  state b = CLOSED -> now - lastResetTime b <= resetTimeout cfg ->
  fst (execute cfg now (scripted false) doneAt b) = onFailure cfg doneAt b.
Proof.
  intros Hs Hr. unfold execute. rewrite precheck_not_open by congruence.
  unfold periodicReset.
  replace (now - lastResetTime b >? resetTimeout cfg) with false
    by (symmetry; rewrite Z.gtb_ltb; apply Z.ltb_ge; assumption).
  reflexivity.
Qed.

Lemma replay_uniform_cons ok (t : Z * Z) rest b :
  replay cfg b (uniformCalls ok (t :: rest)) =
    replay cfg (fst (execute cfg (fst t) (scripted ok) (snd t) b)) (uniformCalls ok rest).
Proof. reflexivity. Qed.

(** X1: counted from a CLOSED breaker, as long as the periodic reset is
    not due, failing calls add one to the failure counter each and the
    circuit opens exactly on the call that brings the counter to
    [failureThreshold]: before that the breaker is still CLOSED. *)
Theorem consecutive_failures_trip_at_threshold (times : list (Z * Z)) : forall b,
  state b = CLOSED ->
  failureCount b < failureThreshold cfg ->
  Forall (fun t => fst t - lastResetTime b <= resetTimeout cfg) times ->
  failureCount b + Z.of_nat (length times) <= failureThreshold cfg ->
  let b' := replay cfg b (uniformCalls false times) in
  failureCount b' = failureCount b + Z.of_nat (length times) /\
  (state b' = OPEN <-> failureCount b + Z.of_nat (length times) = failureThreshold cfg) /\
  (state b' <> OPEN -> state b' = CLOSED).
Proof.
  induction times as [|[now doneAt] rest IH]; intros b Hs Hlt Hwin Hle b'; subst b'.
  - cbn. split; [lia|]. split; [|auto]. split; [congruence|lia].
  - inversion Hwin as [|? ? Hnow Hrest]; subst. cbn [fst] in Hnow.
    rewrite replay_uniform_cons. cbn [fst snd].
    rewrite execute_failure_closed by assumption.
    rewrite length_cons, Nat2Z.inj_succ in *.
    destruct (Z_lt_le_dec (failureCount b + 1) (failureThreshold cfg)) as [Hstill|Hreach].
    + assert (Hst : state (onFailure cfg doneAt b) = CLOSED).
      { rewrite onFailure_state, Hs.
        replace (failureCount b + 1 >=? failureThreshold cfg) with false; [reflexivity|].
        symmetry. rewrite Z.geb_leb. apply Z.leb_gt. exact Hstill. }
      destruct (IH (onFailure cfg doneAt b) Hst) as (Hc & Ho & Hn).
      * cbn [onFailure failureCount]. exact Hstill.
      * exact Hrest.
      * cbn [onFailure failureCount]. lia.
      * cbn [onFailure failureCount] in Hc, Ho.
        split; [rewrite Hc; lia|]. split; [|exact Hn].
        rewrite Ho. split; lia.
    + assert (Hnil : rest = []) by (destruct rest; [reflexivity|cbn in Hle; lia]).
      subst rest. cbn [uniformCalls fmap list_fmap replay length].
      cbn [onFailure failureCount state].
      replace (failureCount b + 1 >=? failureThreshold cfg) with true
        by (symmetry; apply Z.geb_le; lia).
      split; [cbn; lia|]. split; [|congruence].
      split; [cbn in *; lia|reflexivity].
Qed.

End CircuitBreakerMore.

Lemma consecutive_failures_trip_at_threshold_witness :
  CircuitBreaker.state (CircuitBreaker.replay CircuitBreaker.defaultConfig (CircuitBreaker.create 0) CircuitBreaker.trippingCalls) = CircuitBreaker.OPEN /\
  CircuitBreaker.state (CircuitBreaker.replay CircuitBreaker.defaultConfig (CircuitBreaker.create 0)
           (CircuitBreaker.uniformCalls false [(1, 1); (2, 2); (3, 3); (4, 4)])) = CircuitBreaker.CLOSED.
Proof.
  split.
  - destruct (consecutive_failures_trip_at_threshold
                CircuitBreaker.defaultConfig [(1, 1); (2, 2); (3, 3); (4, 4); (5, 5)] (CircuitBreaker.create 0))
      as (_ & Ho & _); [reflexivity|reflexivity| |simpl; lia|].
    + repeat constructor; simpl; lia.
    + apply Ho. reflexivity.
  - destruct (consecutive_failures_trip_at_threshold
                CircuitBreaker.defaultConfig [(1, 1); (2, 2); (3, 3); (4, 4)] (CircuitBreaker.create 0))
      as (_ & Ho & Hn); [reflexivity|reflexivity| |simpl; lia|].
    + repeat constructor; simpl; lia.
    + apply Hn. intros Hopen. apply Ho in Hopen. simpl in Hopen. lia.
Defined.

Section CircuitBreakerRecovery.
Import CircuitBreaker.

Lemma execute_success (cfg : CircuitBreakerConfig) now doneAt b :
  state b <> OPEN ->
  fst (execute cfg now (scripted true) doneAt b) = onSuccess cfg (periodicReset cfg now b).
Proof.
  intros Hs. unfold execute. rewrite precheck_not_open by assumption. reflexivity.
Qed.

(** X2: in HALF_OPEN, successful calls add one to the success counter each
    and clear the failure counter; the circuit closes exactly on the call
    that brings the success counter to [successThreshold], and closing
    zeroes both counters.  The periodic reset does not interfere. *)
Theorem consecutive_successes_close_at_threshold
    (cfg : CircuitBreakerConfig) (times : list (Z * Z)) : forall b,
  state b = HALF_OPEN ->
  times <> [] ->
  successCount b + Z.of_nat (length times) <= successThreshold cfg ->
  let b' := replay cfg b (uniformCalls true times) in
  failureCount b' = 0 /\
  (successCount b + Z.of_nat (length times) = successThreshold cfg ->
     state b' = CLOSED /\ successCount b' = 0) /\
  (successCount b + Z.of_nat (length times) < successThreshold cfg ->
     state b' = HALF_OPEN /\ successCount b' = successCount b + Z.of_nat (length times)).
Proof.
  induction times as [|[now doneAt] rest IH]; intros b Hs Hne Hle b'; subst b';
    [congruence|].
  rewrite replay_uniform_cons. cbn [fst snd].
  rewrite execute_success by congruence.
  rewrite length_cons, Nat2Z.inj_succ in *.
  assert (Hstep : exists sc,
             sc = successCount b + 1 /\
             onSuccess cfg (periodicReset cfg now b) =
               if sc >=? successThreshold cfg
               then {| state := CLOSED; failureCount := 0; successCount := 0;
                       lastFailureTime := lastFailureTime b;
                       lastResetTime := lastResetTime (periodicReset cfg now b) |}
               else {| state := HALF_OPEN; failureCount := 0; successCount := sc;
                       lastFailureTime := lastFailureTime b;
                       lastResetTime := lastResetTime (periodicReset cfg now b) |}).
  { exists (successCount b + 1). split; [reflexivity|].
    unfold onSuccess. cbn [state successCount lastFailureTime lastResetTime].
    rewrite periodicReset_state, Hs, periodicReset_lastFailureTime.
    unfold periodicReset. destruct (_ >? resetTimeout cfg); reflexivity. }
  destruct Hstep as (sc & -> & Hon). rewrite Hon.
  destruct rest as [|next rest'].
  - cbn [uniformCalls fmap list_fmap replay length] in *.
    destruct (successCount b + 1 >=? successThreshold cfg) eqn:Hc;
      [apply Z.geb_le in Hc|rewrite Z.geb_leb in Hc; apply Z.leb_gt in Hc];
      cbn [state failureCount successCount];
      (split; [reflexivity|]); split; intros; try lia; auto.
  - assert (Hlt : successCount b + 1 < successThreshold cfg)
      by (rewrite length_cons, Nat2Z.inj_succ in Hle; lia).
    replace (successCount b + 1 >=? successThreshold cfg) with false
      by (symmetry; rewrite Z.geb_leb; apply Z.leb_gt; exact Hlt).
    match goal with |- context [replay cfg ?b1 _] =>
      destruct (IH b1 eq_refl) as (Hf & Hclose & Hopen) end.
    + discriminate.
    + cbn [successCount]. lia.
    + cbn [successCount] in Hclose, Hopen.
      split; [exact Hf|]. split; intros Hcount.
      * apply Hclose. lia.
      * destruct Hopen as [Hst Hsc]; [lia|]. split; [exact Hst|]. rewrite Hsc. lia.
Qed.

Lemma consecutive_successes_close_at_threshold_witness :
  let probing := replay defaultConfig (create 0) probingCalls in
  state (replay defaultConfig probing (uniformCalls true [(70002, 70003)])) = CLOSED.
Proof.
  destruct (consecutive_successes_close_at_threshold defaultConfig [(70002, 70003)]
              (replay defaultConfig (create 0) probingCalls))
    as (_ & Hclose & _).
  - reflexivity.
  - discriminate.
  - vm_compute. discriminate.
  - apply Hclose. reflexivity.
Defined.

(** X3: every breaker state reached through the public methods, for
    positive thresholds, keeps its counters in range: both are never
    negative, a CLOSED breaker has counted fewer than [failureThreshold]
    failures and no success, a HALF_OPEN breaker fewer than
    [successThreshold] successes, and [lastResetTime] is never in the
    future. *)
Theorem reachable_counters_in_range (cfg : CircuitBreakerConfig) (t : Z) (b : breaker) :
  0 < failureThreshold cfg -> 0 < successThreshold cfg ->
  reachable cfg t b ->
  0 <= failureCount b /\ 0 <= successCount b /\
  (state b = CLOSED -> failureCount b < failureThreshold cfg /\ successCount b = 0) /\
  (state b = HALF_OPEN -> successCount b < successThreshold cfg) /\
  lastResetTime b <= t.
Proof.
  intros Hft Hst Hreach.
  induction Hreach as [t0|t now doneAt b fn Hr IH Ht Hd|t b Hr IH].
  - cbn. repeat split; intros; try lia; try discriminate.
  - destruct IH as (Hfc & Hsc & Hclosed & Hhalf & Hlr).
    unfold execute, precheck, checkState, periodicReset.
    destruct (now - lastResetTime b >? resetTimeout cfg) eqn:Hreset;
      cbn [state failureCount successCount lastFailureTime lastResetTime];
      destruct (state b) eqn:Hs;
      try (destruct (now - lastFailureTime b >? timeout cfg));
      cbn [fst snd state failureCount successCount lastFailureTime lastResetTime];
      try (destruct (fn _));
      unfold onSuccess, onFailure;
      cbn [fst snd state failureCount successCount lastFailureTime lastResetTime];
      try rewrite Hs;
      repeat match goal with
             | |- context [?x >=? ?y] =>
                 let E := fresh "E" in
                 destruct (x >=? y) eqn:E;
                 [apply Z.geb_le in E|rewrite Z.geb_leb in E; apply Z.leb_gt in E]
             end;
      cbn [fst snd state failureCount successCount lastFailureTime lastResetTime];
      repeat split; intros; try discriminate; try lia;
      try (specialize (Hclosed eq_refl); lia);
      try (specialize (Hhalf eq_refl); lia).
  - destruct IH as (Hfc & Hsc & Hclosed & Hhalf & Hlr).
    cbn. repeat split; intros; try lia; try discriminate.
Qed.

Lemma reachable_counters_in_range_witness :
  let b := replay defaultConfig (create 0) probingCalls in
  0 <= failureCount b /\ successCount b < successThreshold defaultConfig.
Proof.
  assert (Hr : reachable defaultConfig 70001
                 (replay defaultConfig (create 0) probingCalls)).
  { apply (replay_reachable defaultConfig probingCalls 0 (create 0));
      [constructor|simpl; lia]. }
  destruct (reachable_counters_in_range defaultConfig 70001 _
              ltac:(simpl; lia) ltac:(simpl; lia) Hr) as (Hf & _ & _ & Hh & _).
  split; [exact Hf|]. apply Hh. reflexivity.
Defined.

(** X4: while the breaker is OPEN, calls made no later than
    [lastFailureTime + timeout] are all rejected and leave the state, the
    success counter and [lastFailureTime] as they are (only the failure
    counter can be zeroed by the periodic reset); so rejections do not
    postpone the probe: the first call after [lastFailureTime + timeout] is
    let through in HALF_OPEN, however many calls were rejected before. *)
Theorem rejected_calls_do_not_postpone_probe
    (cfg : CircuitBreakerConfig) (calls : list (Z * bool * Z)) : forall b,
  state b = OPEN ->
  Forall (fun c => fst (fst c) - lastFailureTime b <= timeout cfg) calls ->
  let b' := replay cfg b calls in
  state b' = OPEN /\
  lastFailureTime b' = lastFailureTime b /\
  successCount b' = successCount b /\
  (failureCount b' = failureCount b \/ failureCount b' = 0) /\
  forall now, now - lastFailureTime b > timeout cfg ->
    exists b1, precheck cfg now b' = Some b1 /\ state b1 = HALF_OPEN.
Proof.
  induction calls as [|[[now ok] doneAt] rest IH]; intros b Hs Hall b'; subst b'.
  - cbn [replay]. repeat split; auto.
    intros now Hnow. unfold precheck, checkState.
    rewrite periodicReset_state, Hs, periodicReset_lastFailureTime.
    replace (now - lastFailureTime b >? timeout cfg) with true
      by (symmetry; rewrite Z.gtb_ltb; apply Z.ltb_lt; lia).
    eexists. split; reflexivity.
  - inversion Hall as [|? ? Hnow Hrest]; subst. cbn [fst] in Hnow.
    cbn [replay].
    assert (Hrej : fst (execute cfg now (scripted ok) doneAt b) = periodicReset cfg now b).
    { unfold execute, precheck, checkState.
      rewrite periodicReset_state, Hs, periodicReset_lastFailureTime.
      replace (now - lastFailureTime b >? timeout cfg) with false
        by (symmetry; rewrite Z.gtb_ltb; apply Z.ltb_ge; lia).
      reflexivity. }
    rewrite Hrej.
    destruct (IH (periodicReset cfg now b)) as (H1 & H2 & H3 & H4 & H5).
    + rewrite periodicReset_state. exact Hs.
    + rewrite periodicReset_lastFailureTime. exact Hrest.
    + rewrite periodicReset_lastFailureTime in H2, H5.
      split; [exact H1|]. split; [exact H2|]. split.
      * rewrite H3. unfold periodicReset. destruct (_ >? _); reflexivity.
      * split; [|exact H5].
        rewrite periodicReset_failureCount in H4.
        destruct (now - lastResetTime b >? resetTimeout cfg); tauto.
Qed.

Lemma rejected_calls_do_not_postpone_probe_witness :
  let b := replay defaultConfig (create 0) trippingCalls in
  state (replay defaultConfig b [(1000, true, 1000); (60005, true, 60005)]) = OPEN /\
  exists b1,
    precheck defaultConfig 60006
      (replay defaultConfig b [(1000, true, 1000); (60005, true, 60005)]) = Some b1 /\
    state b1 = HALF_OPEN.
Proof.
  destruct (rejected_calls_do_not_postpone_probe defaultConfig
              [(1000, true, 1000); (60005, true, 60005)]
              (replay defaultConfig (create 0) trippingCalls))
    as (Hs & _ & _ & _ & Hp).
  - reflexivity.
  - repeat constructor; vm_compute; discriminate.
  - split; [exact Hs|]. apply Hp. vm_compute. reflexivity.
Defined.

End CircuitBreakerRecovery.

(** ** Rate limiter: queue discipline and scheduling *)

Section RateLimiterQueue.
Import RateLimiter.

Lemma process_queue (cfg : config) now l :
  admittedCallers (observe now (process cfg now l)) ++ queue (after (process cfg now l))
    = queue l.
Proof.
  unfold process, observe.
  destruct (processing l && queueIsEmpty l); [reflexivity|].
  destruct (now - windowStart l >=? windowMs cfg); destruct (queue l) as [|r rest];
    try reflexivity;
    destruct (_ <? maxRequests cfg); reflexivity.
Qed.

Lemma step_queue (cfg : config) l ev :
  admittedCallers (snd (step cfg l ev)) ++ queue (fst (step cfg l ev))
    = queue l ++ acquirers [ev].
Proof.
  destruct ev as [now [who| |info]]; cbn [step fst snd acquirers omap].
  - unfold acquire. rewrite process_queue. reflexivity.
  - rewrite process_queue. cbn. rewrite app_nil_r. reflexivity.
  - cbn. rewrite app_nil_r. reflexivity.
Qed.

(** X5: callers are served first in, first out, and none is lost: at any
    point the callers already admitted, in the order of their admission,
    followed by the callers still queued, are the callers that were waiting
    at the start followed by those that called [acquire()] since, in the
    order of their calls. *)
Theorem admissions_first_in_first_out (cfg : config) (trace : list (Z * call)) :
  forall l,
    admittedCallers (snd (run cfg l trace)) ++ queue (fst (run cfg l trace))
      = queue l ++ acquirers trace.
Proof.
  induction trace as [|ev rest IH]; intros l.
  - cbn. rewrite app_nil_r. reflexivity.
  - pose proof (step_queue cfg l ev) as Hstep. cbn [run].
    destruct (step cfg l ev) as [l1 obs1]. cbn [fst snd] in Hstep.
    specialize (IH l1). destruct (run cfg l1 rest) as [l2 obs2]. cbn [fst snd] in *.
    unfold admittedCallers in *. rewrite omap_app, <- app_assoc, IH, app_assoc, Hstep.
    unfold acquirers. rewrite <- app_assoc, <- omap_app. reflexivity.
Qed.

Lemma process_flag (cfg : config) now l :
  processing l = negb (queueIsEmpty l) ->
  processing (after (process cfg now l)) = negb (queueIsEmpty (after (process cfg now l))) /\
  rescheduled (process cfg now l) = negb (queueIsEmpty (after (process cfg now l))).
Proof.
  intros Hinv. unfold process.
  destruct (processing l && queueIsEmpty l) eqn:Hg.
  - apply andb_true_iff in Hg as [Hp Hq]. rewrite Hp, Hq in Hinv. discriminate.
  - destruct (now - windowStart l >=? windowMs cfg); destruct (queue l) as [|r rest];
      try (split; reflexivity);
      destruct (_ <? maxRequests cfg); try (split; reflexivity);
      destruct rest; split; reflexivity.
Qed.

Lemma acquire_flag (cfg : config) now who l :
  processing (after (acquire cfg now who l))
    = negb (queueIsEmpty (after (acquire cfg now who l))) /\
  rescheduled (acquire cfg now who l)
    = negb (queueIsEmpty (after (acquire cfg now who l))).
Proof.
  unfold acquire, process, queueIsEmpty. cbn [queue processing requestCount windowStart].
  destruct (queue l ++ [who]) as [|r rest] eqn:Hq.
  - destruct (queue l); discriminate.
  - rewrite andb_false_r.
    destruct (now - windowStart l >=? windowMs cfg);
      destruct (_ <? maxRequests cfg); try (split; reflexivity);
      destruct rest; split; reflexivity.
Qed.

(** X6: from construction on, [processing] is set exactly while callers are
    queued, so the early return at the top of [process] is never taken;
    and whenever a run of [process] or a call of [acquire] leaves callers
    queued it has set a new timer, so no queued caller is left without a
    pending check. *)
Theorem timer_pending_while_callers_queued (cfg : config) (t0 : Z) (trace : list (Z * call)) :
  let l := fst (run cfg (create t0) trace) in
  processing l = negb (queueIsEmpty l) /\
  processing l && queueIsEmpty l = false /\
  (forall now,
     rescheduled (process cfg now l) = negb (queueIsEmpty (after (process cfg now l)))) /\
  (forall now who,
     rescheduled (acquire cfg now who l)
       = negb (queueIsEmpty (after (acquire cfg now who l)))).
Proof.
  assert (Hinv : forall trace l,
             processing l = negb (queueIsEmpty l) ->
             processing (fst (run cfg l trace))
               = negb (queueIsEmpty (fst (run cfg l trace)))).
  { clear trace. induction trace as [|[now c] rest IH]; intros l Hl; [exact Hl|].
    cbn [run]. destruct (step cfg l (now, c)) as [l1 obs1] eqn:Hstep.
    specialize (IH l1). destruct (run cfg l1 rest) as [l2 obs2]. cbn [fst] in *.
    apply IH. destruct c as [who| |info]; cbn [step] in Hstep;
      injection Hstep as <- _.
    - apply acquire_flag.
    - apply process_flag. exact Hl.
    - exact Hl. }
  intros l. subst l.
  specialize (Hinv trace (create t0) eq_refl).
  split; [exact Hinv|]. split.
  - rewrite Hinv. destruct (queueIsEmpty _); reflexivity.
  - split.
    + intros now. apply process_flag. exact Hinv.
    + intros now who. apply acquire_flag.
Qed.

Lemma observe_one (cfg : config) now l :
  admissions (observe now (process cfg now l)) <= 1.
Proof.
  unfold process, observe.
  destruct (processing l && queueIsEmpty l);
    [cbn [windowReset admitted app]; rewrite admissions_nil; lia|].
  destruct (now - windowStart l >=? windowMs cfg); destruct (queue l) as [|r rest];
    try destruct (_ <? maxRequests cfg);
    cbn [windowReset admitted app];
    rewrite ?admissions_cons, ?admissions_nil; cbn [isAdmission snd]; lia.
Qed.

Lemma admissions_app log1 log2 :
  admissions (log1 ++ log2) = admissions log1 + admissions log2.
Proof.
  induction log1 as [|o rest IH]; [reflexivity|].
  rewrite <- app_comm_cons, !admissions_cons, IH. lia.
Qed.

(** X7: a run of [process] resolves at most one waiting caller, whatever
    room the window has left: a trace of [n] calls and timer callbacks
    admits at most [n] callers. *)
Theorem one_admission_per_run (cfg : config) (trace : list (Z * call)) : forall l,
  admissions (snd (run cfg l trace)) <= Z.of_nat (length trace).
Proof.
  induction trace as [|[now c] rest IH]; intros l;
    [cbn [run snd length]; rewrite admissions_nil; lia|].
  cbn [run]. destruct (step cfg l (now, c)) as [l1 obs1] eqn:Hstep.
  specialize (IH l1). destruct (run cfg l1 rest) as [l2 obs2]. cbn [fst snd] in *.
  rewrite admissions_app, length_cons, Nat2Z.inj_succ.
  assert (admissions obs1 <= 1); [|lia].
  destruct c as [who| |info]; cbn [step] in Hstep; injection Hstep as _ <-.
  - apply observe_one.
  - apply observe_one.
  - rewrite admissions_nil. lia.
Qed.

End RateLimiterQueue.

(** ** Retrying requester: what is returned, when it sleeps, for how long *)

Section HttpMore.
Import Http.

Lemma classify_inl {B} (o : FetchOutcome B) (r : Response B) :
  classify o = inl r -> o = Responded r /\ status r <> 429 /\ status r < 500.
Proof.
  unfold classify, ok. destruct o as [r0|m]; [|discriminate].
  destruct (status r0 =? 429) eqn:E1; [discriminate|]. apply Z.eqb_neq in E1.
  destruct (status r0 >=? 500) eqn:E2.
  - apply Z.geb_le in E2.
    replace (status r0 <=? 299) with false by (symmetry; apply Z.leb_gt; lia).
    rewrite andb_false_r. discriminate.
  - rewrite andb_false_r. rewrite Z.geb_leb in E2. apply Z.leb_gt in E2.
    intros [= <-]. auto.
Qed.

Lemma attemptsFrom_returned {B} (cfg : RetryConfig) lim (fetch : Z -> FetchOutcome B)
    remaining : forall attempt lastError r,
  settled (attemptsFrom cfg lim fetch remaining attempt lastError) = inl r ->
  exists k : nat,
    (k < remaining)%nat /\
    classify (fetch (attempt + Z.of_nat k)) = inl r /\
    attemptsMade (attemptsFrom cfg lim fetch remaining attempt lastError) = S k /\
    forall j : nat, (j < k)%nat -> attemptFails (fetch (attempt + Z.of_nat j)) = true.
Proof.
  induction remaining as [|n IH]; intros attempt lastError r; cbn [attemptsFrom].
  - cbn. discriminate.
  - destruct (classify (fetch attempt)) as [r0|message] eqn:Hc; cbn [settled attemptsMade].
    + intros [= ->]. exists 0%nat. rewrite Z.add_0_r.
      repeat split; [lia|exact Hc|intros j Hj; lia].
    + intros Hs. destruct (IH _ _ _ Hs) as (k & Hk & Hck & Ha & Hfail).
      exists (S k). rewrite Ha.
      replace (attempt + Z.of_nat (S k)) with (attempt + 1 + Z.of_nat k) by lia.
      repeat split; [lia|exact Hck|].
      intros [|j] Hj.
      * rewrite Z.add_0_r. unfold attemptFails. rewrite Hc. reflexivity.
      * replace (attempt + Z.of_nat (S j)) with (attempt + 1 + Z.of_nat j) by lia.
        apply Hfail. lia.
Qed.

(** X8: a response that [fetchWithRetry] returns is never a 429 nor a
    response with a status of 500 or more; it is the response of the last
    attempt made, every earlier attempt having ended in an error, and that
    attempt is within the budget. *)
Theorem returned_response_is_last_attempt
    {B : Type} (cfg : RetryConfig) (hasLimiter : bool) (fetch : Z -> FetchOutcome B)
    (r : Response B) :
  settled (fetchWithRetry cfg hasLimiter fetch) = inl r ->
  status r <> 429 /\ status r < 500 /\
  exists a,
    0 <= a <= maxRetries cfg /\
    fetch a = Responded r /\
    attemptsMade (fetchWithRetry cfg hasLimiter fetch) = Z.to_nat (a + 1) /\
    forall j, 0 <= j < a -> retryable (fetch j).
Proof.
  unfold fetchWithRetry. intros Hs.
  destruct (attemptsFrom_returned cfg hasLimiter fetch _ _ _ _ Hs)
    as (k & Hk & Hc & Ha & Hfail).
  rewrite Z.add_0_l in Hc. destruct (classify_inl _ _ Hc) as (Hr & H429 & H500).
  split; [exact H429|]. split; [exact H500|].
  exists (Z.of_nat k). repeat split; try lia; try exact Hr.
  intros j Hj. apply retryable_fails.
  specialize (Hfail (Z.to_nat j)). rewrite Z.add_0_l, Z2Nat.id in Hfail by lia.
  apply Hfail. lia.
Qed.

Lemma returned_response_is_last_attempt_witness :
  settled (fetchWithRetry defaultRetryConfig false twiceThenOk) = inl (plain 200 tt) /\
  exists a, 0 <= a <= 3 /\ twiceThenOk a = Responded (plain 200 tt).
Proof.
  split; [reflexivity|].
  destruct (returned_response_is_last_attempt defaultRetryConfig false twiceThenOk
              (plain 200 tt) eq_refl) as (_ & _ & a & Ha & Hr & _).
  exists a. split; [exact Ha|exact Hr].
Defined.

Lemma attemptsFrom_sleeps {B} (cfg : RetryConfig) lim (fetch : Z -> FetchOutcome B)
    remaining : forall attempt lastError,
  attempt + Z.of_nat remaining = maxRetries cfg + 1 ->
  (0 < remaining)%nat ->
  S (length (slept (attemptsFrom cfg lim fetch remaining attempt lastError)))
    = attemptsMade (attemptsFrom cfg lim fetch remaining attempt lastError).
Proof.
  induction remaining as [|n IH]; intros attempt lastError Hsum Hpos; [lia|].
  cbn [attemptsFrom]. destruct (classify (fetch attempt)); cbn [slept attemptsMade];
    [reflexivity|].
  rewrite length_app. destruct n as [|m].
  - replace (attempt <? maxRetries cfg) with false by (symmetry; apply Z.ltb_ge; lia).
    reflexivity.
  - replace (attempt <? maxRetries cfg) with true by (symmetry; apply Z.ltb_lt; lia).
    cbn [length Nat.add]. f_equal. apply IH; lia.
Qed.

(** X9: for a budget that is not negative, [fetchWithRetry] sleeps exactly
    once between two consecutive attempts and never after the last one,
    whether it ends with a response or with an error: the number of delays
    is the number of attempts minus one. *)
Theorem one_delay_between_attempts
    {B : Type} (cfg : RetryConfig) (hasLimiter : bool) (fetch : Z -> FetchOutcome B) :
  0 <= maxRetries cfg ->
  S (length (slept (fetchWithRetry cfg hasLimiter fetch)))
    = attemptsMade (fetchWithRetry cfg hasLimiter fetch).
Proof.
  intros Hm. unfold fetchWithRetry. apply attemptsFrom_sleeps; lia.
Qed.

Lemma one_delay_between_attempts_witness :
  slept (fetchWithRetry defaultRetryConfig false (always 503)) = [1000; 2000; 4000] /\
  S (length (slept (fetchWithRetry defaultRetryConfig false twiceThenOk))) = 3%nat.
Proof.
  split; [reflexivity|].
  rewrite (one_delay_between_attempts defaultRetryConfig false twiceThenOk).
  - reflexivity.
  - simpl. lia.
Defined.

(** X10: with a negative [maxRetries] the loop body never runs: [fetch] is
    not called, nothing is awaited, and the error thrown is the generic
    "Request failed". *)
Theorem negative_budget_never_fetches
    {B : Type} (cfg : RetryConfig) (hasLimiter : bool) (fetch : Z -> FetchOutcome B) :
  maxRetries cfg < 0 ->
  fetchWithRetry cfg hasLimiter fetch =
    {| settled := inr "Request failed"%string; attemptsMade := 0;
       slept := []; reported := [] |}.
Proof.
  intros Hm. unfold fetchWithRetry.
  replace (Z.to_nat (maxRetries cfg + 1)) with 0%nat by lia. reflexivity.
Qed.

Lemma negative_budget_never_fetches_witness :
  attemptsMade (fetchWithRetry
                  {| maxRetries := -1; baseDelayMs := 1000; maxDelayMs := 10000 |}
                  false (always 200)) = 0%nat.
Proof.
  rewrite (negative_budget_never_fetches
             {| maxRetries := -1; baseDelayMs := 1000; maxDelayMs := 10000 |}
             false (always 200)); [reflexivity|simpl; lia].
Defined.

End HttpMore.

Section HttpDelays.
Import Http.

Lemma digitOf_digitChar d : 0 <= d < 10 -> digitOf (digitChar d) = Some d.
Proof.
  intros Hd.
  assert (Hcases : d = 0 \/ d = 1 \/ d = 2 \/ d = 3 \/ d = 4 \/
                   d = 5 \/ d = 6 \/ d = 7 \/ d = 8 \/ d = 9) by lia.
  repeat (destruct Hcases as [->|Hcases]; [reflexivity|]). subst d. reflexivity.
Qed.

Lemma showDigits_app fuel : forall n acc s,
  (showDigits fuel n acc +:+ s)%string = showDigits fuel n (acc +:+ s)%string.
Proof.
  induction fuel as [|f IH]; intros n acc s; cbn [showDigits]; [reflexivity|].
  destruct (n <? 10); [reflexivity|]. rewrite IH. reflexivity.
Qed.

(** Reading back the digits that [showDigits] wrote. *)
Lemma showDigits_read fuel : forall n acc,
  0 <= n < 10 ^ Z.of_nat fuel -> (0 < fuel)%nat ->
  exists c rest k,
    showDigits fuel n acc = String c rest /\
    is_Some (digitOf c) /\ 0 <= k /\
    forall a, leadingDigits a (String c rest) = leadingDigits (a * 10 ^ k + n) acc.
Proof.
  induction fuel as [|f IH]; intros n acc Hn Hfuel.
  - lia.
  - cbn [showDigits].
    assert (Hmod : 0 <= n mod 10 < 10) by (apply Z.mod_pos_bound; lia).
    destruct (n <? 10) eqn:Hlt.
    + apply Z.ltb_lt in Hlt. rewrite Z.mod_small by lia.
      exists (digitChar n), acc, 1. split; [reflexivity|].
      rewrite digitOf_digitChar by lia. split; [eauto|]. split; [lia|].
      intros a. cbn [leadingDigits]. rewrite digitOf_digitChar by lia.
      f_equal. lia.
    + apply Z.ltb_ge in Hlt.
      destruct (IH (n / 10) (String (digitChar (n mod 10)) acc))
        as (c & rest & k & Hs & Hd & Hk & Hread).
      { rewrite Nat2Z.inj_succ, Z.pow_succ_r in Hn by lia. split.
        - apply Z.div_pos; lia.
        - apply Z.div_lt_upper_bound; lia. }
      { destruct f as [|f']; [|lia].
        change (Z.of_nat 1) with 1 in Hn. change (10 ^ 1) with 10 in Hn. lia. }
      exists c, rest, (k + 1). split; [exact Hs|]. split; [exact Hd|]. split; [lia|].
      intros a. rewrite Hread. cbn [leadingDigits]. rewrite digitOf_digitChar by lia.
      f_equal. rewrite Z.pow_add_r by lia. change (10 ^ 1) with 10.
      pose proof (Z.div_mod n 10 ltac:(lia)). lia.
Qed.

Lemma enough_digits m : 0 <= m -> m < 10 ^ Z.of_nat (S (Z.to_nat (Z.log2 m))).
Proof.
  intros Hm. rewrite Nat2Z.inj_succ, Z2Nat.id by apply Z.log2_nonneg.
  destruct (Z.eq_dec m 0) as [->|Hne]; [reflexivity|].
  destruct (Z.log2_spec m ltac:(lia)) as [_ Hup].
  eapply Z.lt_le_trans; [exact Hup|].
  apply Z.pow_le_mono_l. lia.
Qed.

(** The first number found in the digits of [m] followed by the letter s
    is [m]. *)
Lemma firstNumber_digits m :
  0 <= m ->
  firstNumber (showDigits (S (Z.to_nat (Z.log2 m))) m EmptyString +:+ "s")%string = m.
Proof.
  intros Hm. rewrite showDigits_app.
  destruct (showDigits_read _ m ("" +:+ "s")%string (conj Hm (enough_digits m Hm))
              ltac:(lia))
    as (c & rest & k & Hs & [d Hd] & _ & Hread).
  rewrite Hs. cbn [firstNumber]. rewrite Hd. rewrite Hread. reflexivity.
Qed.

(** X11: after a 429 the delay before the next attempt comes from the
    Retry-After value through the text of the error: it is the absolute
    value of the parsed number of seconds times 1000 (a negative value
    loses its sign on the way), and 60 seconds when the header does not
    parse to a number; the computed backoff plays no part.  The delay is
    taken within 2^53, where the arithmetic of numbers is exact and a
    number is printed with all its digits. *)
Theorem rate_limit_delay_from_retry_after
    {B : Type} (cfg : RetryConfig) (attempt : Z) (r : Response B) :
  status r = 429 ->
  (forall seconds, retryAfter r = Some seconds -> Z.abs seconds * 1000 <= 2 ^ 53) ->
  retryDelay cfg attempt (errorOf (Responded r)) =
    match retryAfter r with
    | Some seconds => Z.abs seconds * 1000
    | None => 60000
    end.
Proof.
  intros Hs _. unfold errorOf, classify. rewrite Hs. cbn [Z.eqb Pos.eqb].
  unfold retryDelay.
  replace (includes "Rate limited"
             ("Rate limited: retry after " +:+ showNumber (retryAfter r) +:+ "s")%string)
    with true by (vm_compute; reflexivity).
  destruct (retryAfter r) as [seconds|]; [|reflexivity].
  cbn [showNumber]. unfold showInt.
  change (firstNumber ("Rate limited: retry after " +:+ ?x))
    with (firstNumber x).
  destruct (seconds <? 0).
  - change (firstNumber (String "-" ?d +:+ "s")) with (firstNumber (d +:+ "s")%string).
    rewrite firstNumber_digits by lia. reflexivity.
  - rewrite firstNumber_digits by lia. reflexivity.
Qed.

Lemma rate_limit_delay_from_retry_after_witness :
  retryDelay defaultRetryConfig 2
    (errorOf (Responded {| status := 429; retryAfter := Some 7;
                           rateLimit := None; body := tt |})) = 7000.
Proof.
  rewrite (rate_limit_delay_from_retry_after defaultRetryConfig 2
             {| status := 429; retryAfter := Some 7; rateLimit := None; body := tt |}).
  - reflexivity.
  - reflexivity.
  - intros seconds [= <-]. vm_compute. discriminate.
Defined.

Lemma occurs_app c s1 s2 :
  occurs c (s1 +:+ s2)%string = occurs c s1 || occurs c s2.
Proof.
  induction s1 as [|c' rest IH]; [reflexivity|].
  simpl. destruct (Ascii.eqb c c'); [reflexivity|exact IH].
Qed.

Lemma occurs_showDigits c fuel : forall n acc,
  0 <= n -> digitOf c = None -> occurs c acc = false ->
  occurs c (showDigits fuel n acc) = false.
Proof.
  induction fuel as [|f IH]; intros n acc Hn Hc Hacc; [exact Hacc|].
  cbn [showDigits].
  assert (Hmod : 0 <= n mod 10 < 10) by (apply Z.mod_pos_bound; lia).
  assert (Hstep : occurs c (String (digitChar (n mod 10)) acc) = false).
  { cbn [occurs]. destruct (Ascii.eqb c (digitChar (n mod 10))) eqn:E; [|exact Hacc].
    apply Ascii.eqb_eq in E. subst c. rewrite digitOf_digitChar in Hc by lia. discriminate. }
  destruct (n <? 10); [exact Hstep|].
  apply IH; [apply Z.div_pos; lia|exact Hc|exact Hstep].
Qed.

Lemma occurs_showInt c n :
  digitOf c = None -> c <> "-"%char -> occurs c (showInt n) = false.
Proof.
  intros Hc Hminus. unfold showInt.
  assert (Hd : occurs c (showDigits (S (Z.to_nat (Z.log2 (Z.abs n)))) (Z.abs n) "") = false)
    by (apply occurs_showDigits; [lia|exact Hc|reflexivity]).
  destruct (n <? 0); [|exact Hd].
  cbn [occurs]. destruct (Ascii.eqb c "-") eqn:E; [|exact Hd].
  apply Ascii.eqb_eq in E. contradiction.
Qed.

(** A text that lacks the first character of a needle does not contain the
    needle. *)
Lemma includes_needs_first_char c needle message :
  occurs c message = false -> includes (String c needle) message = false.
Proof.
  unfold includes. intros Hocc.
  assert (Hidx : String.index 0 (String c needle) message = None); [|rewrite Hidx; reflexivity].
  induction message as [|c' rest IH]; [reflexivity|].
  cbn [occurs] in Hocc. destruct (Ascii.eqb c c') eqn:E; [discriminate|].
  apply Ascii.eqb_neq in E. cbn [String.index].
  destruct (String.prefix (String c needle) (String c' rest)) eqn:Hp.
  - apply String.prefix_correct in Hp. cbn in Hp. injection Hp as Hc _. congruence.
  - rewrite (IH Hocc). reflexivity.
Qed.

(** X12: the error made for a response with a status of 500 or more is
    never taken for a rate limit, whatever digits the status has: the delay
    after attempt 0, 1, ... is the exponential backoff
    [baseDelayMs * 2^attempt] capped at [maxDelayMs], hence never longer
    than [maxDelayMs]. *)
Theorem server_error_delay_is_capped_backoff
    {B : Type} (cfg : RetryConfig) (attempt : Z) (r : Response B) :
  500 <= status r -> 0 <= attempt ->
  retryDelay cfg attempt (errorOf (Responded r))
    = Z.min (baseDelayMs cfg * 2 ^ attempt) (maxDelayMs cfg) /\
  retryDelay cfg attempt (errorOf (Responded r)) <= maxDelayMs cfg.
Proof.
  intros Hs _.
  assert (Herr : errorOf (Responded r) = ("Server error: " +:+ showInt (status r))%string).
  { unfold errorOf, classify, ok.
    replace (status r =? 429) with false by (symmetry; apply Z.eqb_neq; lia).
    replace (status r <=? 299) with false by (symmetry; apply Z.leb_gt; lia).
    replace (status r >=? 500) with true by (symmetry; apply Z.geb_le; lia).
    rewrite andb_false_r. reflexivity. }
  rewrite Herr. unfold retryDelay.
  rewrite (includes_needs_first_char "R" "ate limited").
  - split; [reflexivity|apply Z.le_min_r].
  - rewrite occurs_app, occurs_showInt; [reflexivity|reflexivity|discriminate].
Qed.

Lemma server_error_delay_is_capped_backoff_witness :
  retryDelay defaultRetryConfig 5 (errorOf (Responded (plain 503 tt))) = 10000.
Proof.
  destruct (server_error_delay_is_capped_backoff defaultRetryConfig 5 (plain 503 tt))
    as [H _]; [simpl; lia|lia|].
  rewrite H. reflexivity.
Defined.

End HttpDelays.

(** ** Liquidity search, slippage and cache: further properties *)

Section SearchMore.
Import Service.

Lemma search_strictly_below (quote : Z -> option Z) (route : Route) budget iterations :
  forall low high,
    0 <= low < high ->
    low <= search quote route budget iterations low high < high.
Proof.
  induction iterations as [|n IH]; intros low high H; cbn [search]; [lia|].
  pose proof (midpoint_between low high ltac:(lia)) as Hmid.
  set (mid := Z.quot (low + high) 2) in *.
  destruct (mid =? low) eqn:E1; [cbn; lia|]. apply Z.eqb_neq in E1.
  destruct (mid =? high) eqn:E2; [cbn; lia|]. apply Z.eqb_neq in E2.
  cbn [orb].
  destruct (quote mid) as [out|].
  - destruct (calculateSlippage route mid out <=? budget).
    + specialize (IH mid high). lia.
    + specialize (IH low mid). lia.
  - specialize (IH low mid). lia.
Qed.

(** X13: whatever the quotes are, the amount returned by the search is
    never negative and always strictly below the upper bound 10^19. *)
Theorem search_result_in_range (quote : Z -> option Z) (route : Route) (slippageBps : Z) :
  0 <= findMaxAmountForSlippage quote route slippageBps < UPPER_BOUND.
Proof.
  unfold findMaxAmountForSlippage. apply search_strictly_below.
  unfold UPPER_BOUND. lia.
Qed.

Lemma search_confirmed (quote : Z -> option Z) (route : Route) budget iterations :
  forall low high,
    let result := search quote route budget iterations low high in
    result = low \/
    exists out, quote result = Some out /\ calculateSlippage route result out <= budget.
Proof.
  induction iterations as [|n IH]; intros low high; cbn [search]; [left; reflexivity|].
  set (mid := Z.quot (low + high) 2).
  destruct ((mid =? low) || (mid =? high)); [left; reflexivity|].
  destruct (quote mid) as [out|] eqn:Hq; [|apply IH].
  destruct (calculateSlippage route mid out <=? budget) eqn:Hs; [|apply IH].
  apply Z.leb_le in Hs.
  destruct (IH mid high) as [Heq|Hconf]; [|right; exact Hconf].
  right. cbv zeta in Heq. rewrite Heq. exists out. split; assumption.
Qed.

(** X14: the amount returned by the search is either 0 or an amount that
    was probed and found within the budget: its quote exists and its
    slippage is at most [slippageBps].  A probe that throws or exceeds the
    budget is never returned. *)
Theorem search_returns_confirmed_amount
    (quote : Z -> option Z) (route : Route) (slippageBps : Z) :
  let result := findMaxAmountForSlippage quote route slippageBps in
  result = 0 \/
  exists out,
    quote result = Some out /\ calculateSlippage route result out <= slippageBps.
Proof.
  unfold findMaxAmountForSlippage. apply search_confirmed.
Qed.

(** X15: slippage is never negative, for every route, amount and quote,
    whichever side the quote is on; it is 0 when the expected output is 0
    (an amount too small for the destination decimals), whatever the quote;
    and for a positive expected output and a budget that is not negative, a
    quote is within the budget exactly when its distance from the expected
    output, times 10000, stays below [(budget + 1)] times the expected
    output, so a quote above the expected output counts as slippage just
    like one below. *)
Theorem slippage_within_budget_iff (route : Route) (amountIn amountOut budget : Z) :
  0 <= calculateSlippage route amountIn amountOut /\
  (expectedOut route amountIn = 0 -> calculateSlippage route amountIn amountOut = 0) /\
  (0 < expectedOut route amountIn -> 0 <= budget ->
   (calculateSlippage route amountIn amountOut <= budget <->
    Z.abs (expectedOut route amountIn - amountOut) * 10000
      < (budget + 1) * expectedOut route amountIn)).
Proof.
  unfold calculateSlippage.
  set (e := expectedOut route amountIn) in *.
  split; [destruct (e =? 0); [lia|apply Z.abs_nonneg]|].
  split; [intros ->; reflexivity|].
  intros He Hb.
  replace (e =? 0) with false by (symmetry; apply Z.eqb_neq; lia).
  rewrite <- Z.quot_abs by lia.
  rewrite (Z.abs_eq e) by lia.
  rewrite Z.abs_mul. change (Z.abs 10000) with 10000.
  set (d := Z.abs (e - amountOut) * 10000).
  assert (Hd : 0 <= d) by (unfold d; pose proof (Z.abs_nonneg (e - amountOut)); lia).
  rewrite Z.quot_div_nonneg by lia.
  split; intros H.
  - apply Z.lt_succ_r in H. unfold Z.succ in H.
    pose proof (Z.mul_lt_mono_pos_l e (d / e) (budget + 1) He) as [Hmul _].
    specialize (Hmul ltac:(lia)).
    pose proof (Z.mod_pos_bound d e He). pose proof (Z.div_mod d e ltac:(lia)). nia.
  - apply Z.lt_succ_r. apply Z.div_lt_upper_bound; [lia|]. unfold Z.succ. lia.
Qed.

Lemma slippage_within_budget_iff_witness :
  calculateSlippage ethereumToPolygon 1000000 997500 <= 50 /\
  ~ calculateSlippage ethereumToPolygon 1000000 1010000 <= 50 /\
  calculateSlippage ethereumToPolygon 0 5 = 0.
Proof.
  split; [|split].
  - apply (slippage_within_budget_iff ethereumToPolygon 1000000 997500 50);
      vm_compute; congruence.
  - intros H.
    apply (slippage_within_budget_iff ethereumToPolygon 1000000 1010000 50) in H;
      vm_compute in H |- *; congruence.
  - apply (slippage_within_budget_iff ethereumToPolygon 0 5 0). reflexivity.
Defined.

End SearchMore.

Section CacheMore.
Import Service.

Context {V : Type}.
Implicit Types (cache : gmap string (entry V)) (key : string) (v : V).

(** X16: a cache operation on one key never disturbs another: after
    [setCache] on [key], a [getFromCache] of a different key returns what it
    would have returned before, and leaves the new entry of [key] in place;
    and a [getFromCache] never changes what is stored under a different
    key. *)
Theorem cache_keys_independent now key v cache other later :
  other <> key ->
  fst (getFromCache later other (setCache now key v cache))
    = fst (getFromCache later other cache) /\
  snd (getFromCache later other (setCache now key v cache))
    = setCache now key v (snd (getFromCache later other cache)) /\
  snd (getFromCache later other cache) !! key = cache !! key.
Proof.
  intros Hne. unfold getFromCache, setCache.
  rewrite lookup_insert_ne by congruence.
  destruct (cache !! other) as [cached|] eqn:Hc; [|auto].
  destruct (expires cached >? later); cbn [fst snd]; [auto|].
  split; [reflexivity|]. split.
  - apply delete_insert_ne. congruence.
  - apply lookup_delete_ne. congruence.
Qed.

(** X17: the last write wins and restarts the clock: after two [setCache]
    on the same key only the second value is stored, with the expiry of the
    second write, so a value written again is served for a full minute from
    the second write on. *)
Theorem cache_overwrite_refreshes now1 now2 key v1 v2 cache later :
  setCache now2 key v2 (setCache now1 key v1 cache) = setCache now2 key v2 cache /\
  (later < now2 + CACHE_TTL ->
   fst (getFromCache later key (setCache now2 key v2 (setCache now1 key v1 cache)))
     = Some v2).
Proof.
  split; [unfold setCache; apply insert_insert_eq|].
  intros Hlt. unfold getFromCache, setCache. rewrite lookup_insert_eq. cbn [expires].
  replace (now2 + CACHE_TTL >? later) with true
    by (symmetry; rewrite Z.gtb_ltb; apply Z.ltb_lt; exact Hlt).
  reflexivity.
Qed.

End CacheMore.

Lemma cache_keys_independent_witness :
  fst (Service.getFromCache 5 "volumes:24h"
         (Service.setCache 0 "listedAssets" 1%nat (Service.setCache 0 "volumes:24h" 2%nat ∅)))
    = Some 2%nat.
Proof.
  destruct (cache_keys_independent 0 "listedAssets" 1%nat
              (Service.setCache 0 "volumes:24h" 2%nat ∅) "volumes:24h" 5) as [H _].
  - discriminate.
  - rewrite H. reflexivity.
Defined.

Lemma cache_overwrite_refreshes_witness :
  fst (Service.getFromCache 100000 "listedAssets"
         (Service.setCache 50000 "listedAssets" 2%nat
            (Service.setCache 0 "listedAssets" 1%nat ∅))) = Some 2%nat.
Proof.
  destruct (cache_overwrite_refreshes 0 50000 "listedAssets" 1%nat 2%nat ∅ 100000)
    as [_ H].
  apply H. unfold Service.CACHE_TTL. lia.
Defined.

Section RetryConfigIgnored.
Import Service.

Lemma attemptsFrom_outcome_cfg {B} (cfg cfg' : Http.RetryConfig) lim
    (fetch : Z -> Http.FetchOutcome B) remaining : forall attempt lastError,
  Http.settled (Http.attemptsFrom cfg lim fetch remaining attempt lastError)
    = Http.settled (Http.attemptsFrom cfg' lim fetch remaining attempt lastError).
Proof.
  induction remaining as [|n IH]; intros attempt lastError; cbn [Http.attemptsFrom];
    [reflexivity|].
  destruct (Http.classify (fetch attempt)); cbn [Http.settled]; [reflexivity|apply IH].
Qed.

Lemma firstQuote_cfg (rc rc' : Http.RetryConfig) (net : Network) route notional endpoints :
  firstQuote rc net route notional endpoints = firstQuote rc' net route notional endpoints.
Proof.
  induction endpoints as [|endpoint rest IH]; cbn [firstQuote]; [reflexivity|].
  unfold Http.fetchWithRetry. cbn [oneRetry Http.maxRetries].
  rewrite (attemptsFrom_outcome_cfg (oneRetry rc) (oneRetry rc')), IH. reflexivity.
Qed.

(** X18: the retry configuration handed to the service has no influence
    on the rates it returns: every quote request overrides [maxRetries]
    with 1, so each endpoint is tried at most twice per rate whatever was
    configured, and the delays only affect timing. *)
Theorem rates_ignore_retry_configuration
    (rc rc' : Http.RetryConfig) (net : Network)
    (routes : list Route) (notionals : list Notional) :
  getRates rc net routes notionals = getRates rc' net routes notionals /\
  forall endpoint route notional,
    (Http.attemptsMade
       (Http.fetchWithRetry (oneRetry rc) false (net endpoint route notional)) <= 2)%nat.
Proof.
  split.
  - unfold getRates. apply mapM_ext. intros item.
    unfold rateEntry, getSingleRate. rewrite (firstQuote_cfg rc rc'). reflexivity.
  - intros endpoint route notional.
    apply (attemptsFrom_bound (oneRetry rc) false (net endpoint route notional) 2 0 None).
Qed.

End RetryConfigIgnored.

(** ** Metrics collector *)

Section MetricsFacts.
Import Metrics.

Lemma step_countersAgree c ev : countersAgree c -> countersAgree (step c ev).
Proof.
  unfold countersAgree. intros (H1 & H2 & H3 & H4 & H5 & H6 & H7).
  destruct ev as [now [ok ms [[|]|]|hit|]]; cbn; try destruct ok; try destruct hit;
    cbn; repeat split; lia.
Qed.

Lemma run_countersAgree calls : forall c,
  countersAgree c -> countersAgree (run c calls).
Proof.
  induction calls as [|ev rest IH]; intros c Hc; [exact Hc|].
  apply IH. apply step_countersAgree. exact Hc.
Qed.

Lemma run_total calls : forall c,
  total (apiCalls (run c calls)) = apiCallsSince (total (apiCalls c)) calls.
Proof.
  induction calls as [|[now [ok ms e|hit|]] rest IH]; intros c; [reflexivity| | |];
    cbn [run fold_left apiCallsSince].
  - apply (IH (step c (now, RecordApiCall ok ms e))).
  - apply (IH (step c (now, RecordCacheHit hit))).
  - apply (IH (step c (now, Reset))).
Qed.

(** X19: whatever is recorded, in whatever order and across resets, the
    API counters stay consistent: [total] is [success + failures], it is the
    number of calls recorded since the last reset, timeouts and rate limits
    together never exceed the failures, and no counter is negative. *)
Theorem api_counters_consistent (now : Z) (calls : list (Z * call)) :
  let c := run (create now) calls in
  total (apiCalls c) = success (apiCalls c) + failures (apiCalls c) /\
  total (apiCalls c) = apiCallsSince 0 calls /\
  timeouts (apiCalls c) + rateLimited (apiCalls c) <= failures (apiCalls c) /\
  0 <= success (apiCalls c) /\ 0 <= timeouts (apiCalls c) /\
  0 <= rateLimited (apiCalls c) /\ 0 <= hits (cache c) /\ 0 <= misses (cache c).
Proof.
  intros c. subst c.
  destruct (run_countersAgree calls (create now)) as (H1 & H2 & H3 & H4 & H5 & H6 & H7).
  { unfold countersAgree. cbn. lia. }
  pose proof (run_total calls (create now)) as Ht. cbn [create apiCalls total] in Ht.
  repeat split; assumption.
Qed.

Lemma lastN_short {A} n (l : list A) : (length l <= n)%nat -> lastN n l = l.
Proof. intros H. unfold lastN. replace (length l - n)%nat with 0%nat by lia. reflexivity. Qed.

Lemma lastN_push {A} (h : list A) x :
  (length h <= 1000)%nat ->
  (if (1000 <? length (h ++ [x]))%nat then tail (h ++ [x]) else h ++ [x])
    = lastN 1000 (h ++ [x]).
Proof.
  intros Hh. unfold lastN. rewrite length_app. cbn [length].
  destruct (1000 <? length h + 1)%nat eqn:E.
  - apply Nat.ltb_lt in E. replace (length h + 1 - 1000)%nat with 1%nat by lia.
    destruct (h ++ [x]); reflexivity.
  - apply Nat.ltb_ge in E. replace (length h + 1 - 1000)%nat with 0%nat by lia.
    reflexivity.
Qed.

Lemma lastN_app {A} n (l k : list A) : lastN n (lastN n l ++ k) = lastN n (l ++ k).
Proof.
  unfold lastN. rewrite !length_app, length_drop.
  destruct (le_lt_dec n (length l)) as [Hge|Hlt].
  - replace (length l - (length l - n) + length k - n)%nat with (length k) by lia.
    replace (length l + length k - n)%nat with ((length l - n) + length k)%nat by lia.
    rewrite <- drop_drop. rewrite (drop_app_le l k (length l - n)) by lia. reflexivity.
  - replace (length l - n)%nat with 0%nat by lia. rewrite drop_0.
    f_equal. lia.
Qed.

Lemma lastN_length {A} n (l : list A) : (length (lastN n l) <= n)%nat.
Proof. unfold lastN. rewrite length_drop. lia. Qed.

Lemma run_history calls : forall c acc,
  latencyHistory c = lastN 1000 acc ->
  latencyHistory (run c calls) = lastN 1000 (recorded acc calls).
Proof.
  induction calls as [|[now [ok ms e|hit|]] rest IH]; intros c acc Hc; [exact Hc| | |];
    cbn [run fold_left recorded].
  - apply (IH (step c (now, RecordApiCall ok ms e))).
    cbn [step snd fst recordApiCall latencyHistory].
    rewrite lastN_push by (rewrite Hc; apply lastN_length).
    rewrite Hc. apply lastN_app.
  - apply (IH (step c (now, RecordCacheHit hit))). exact Hc.
  - apply (IH (step c (now, Reset))). reflexivity.
Qed.

(** X20: the latency history is exactly the last 1000 latencies recorded
    since the last reset, in the order they were recorded; it never holds
    more than 1000 entries. *)
Theorem history_keeps_last_1000 (now : Z) (calls : list (Z * call)) :
  latencyHistory (run (create now) calls) = lastN 1000 (recorded [] calls) /\
  (length (latencyHistory (run (create now) calls)) <= 1000)%nat.
Proof.
  assert (H : latencyHistory (run (create now) calls) = lastN 1000 (recorded [] calls))
    by (apply run_history; reflexivity).
  split; [exact H|]. rewrite H. apply lastN_length.
Qed.

End MetricsFacts.

Section MetricsLatency.
Import Metrics.

Lemma sorted_lookup_le (l : list Z) : StronglySorted Z.le l ->
  forall i j x y, (i <= j)%nat -> l !! i = Some x -> l !! j = Some y -> x <= y.
Proof.
  induction 1 as [|a l Hs IH Hall]; intros i j x y Hij Hi Hj; [discriminate|].
  destruct i as [|i], j as [|j]; cbn in Hi, Hj.
  - injection Hi as <-. injection Hj as <-. lia.
  - injection Hi as <-. rewrite Forall_forall in Hall.
    apply Hall. apply (list_elem_of_lookup_2 _ _ _ Hj).
  - lia.
  - apply (IH i j); [lia|assumption|assumption].
Qed.

Lemma indices_in_range len :
  (1 <= len <= 1000)%nat -> indicesInRange len = true.
Proof.
  intros Hlen.
  assert (Hall : forallb indicesInRange (seq 1 1000) = true) by (vm_compute; reflexivity).
  rewrite forallb_forall in Hall. apply Hall. apply in_seq. lia.
Qed.

(** What [updateLatencyMetrics] makes of a history that is not empty and
    holds at most 1000 latencies. *)
Lemma summary_ordered (history : list Z) (old : Latency) :
  history <> [] -> (length history <= 1000)%nat ->
  let summary := updateLatencyMetrics history old in
  exists least,
    min summary = Some least /\
    least ∈ history /\ max summary ∈ history /\
    (forall x, x ∈ history -> least <= x <= max summary) /\
    least <= p95 summary /\ p95 summary <= p99 summary /\ p99 summary <= max summary /\
    p95 summary ∈ history /\ p99 summary ∈ history.
Proof.
  intros Hne Hlen summary. subst summary.
  destruct history as [|h0 hrest] eqn:Hh; [congruence|]. rewrite <- Hh in *.
  assert (Hupd : updateLatencyMetrics history old =
            let sorted := sortAscending history in
            {| min := sorted !! 0%nat;
               max := default 0 (sorted !! (length sorted - 1)%nat);
               avg := Service.fdiv (Service.Number (foldr Z.add 0 sorted))
                        (Service.Number (Z.of_nat (length sorted)));
               p95 := default 0 (sorted !! percentileIndex (length sorted) 95);
               p99 := default 0 (sorted !! percentileIndex (length sorted) 99) |})
    by (rewrite Hh; reflexivity).
  rewrite Hupd. clear Hupd. cbv zeta. cbn [min max p95 p99].
  set (sorted := sortAscending history).
  assert (Hperm : sorted ≡ₚ history) by apply merge_sort_Permutation.
  assert (Hsorted : StronglySorted Z.le sorted).
  { apply StronglySorted_merge_sort; [intros x y z; lia|intros x y; lia]. }
  assert (Hl : length sorted = length history) by (rewrite Hperm; reflexivity).
  assert (Hpos : (1 <= length sorted <= 1000)%nat) by (rewrite Hl, Hh in *; cbn in *; lia).
  pose proof (indices_in_range _ Hpos) as Hidx. unfold indicesInRange in Hidx.
  apply andb_true_iff in Hidx as [H9599 H99]. apply Nat.leb_le in H9599. apply Nat.ltb_lt in H99.
  destruct (lookup_lt_is_Some_2 sorted 0%nat ltac:(lia)) as [least Hleast].
  destruct (lookup_lt_is_Some_2 sorted (length sorted - 1)%nat ltac:(lia)) as [most Hmost].
  destruct (lookup_lt_is_Some_2 sorted (percentileIndex (length sorted) 95) ltac:(lia))
    as [v95 H95].
  destruct (lookup_lt_is_Some_2 sorted (percentileIndex (length sorted) 99) ltac:(lia))
    as [v99 Hv99].
  rewrite Hleast, Hmost, H95, Hv99. cbn [default from_option].
  exists least. split; [reflexivity|].
  split; [rewrite <- Hperm; apply (list_elem_of_lookup_2 _ _ _ Hleast)|].
  split; [rewrite <- Hperm; apply (list_elem_of_lookup_2 _ _ _ Hmost)|].
  split; [|repeat split].
  - intros x Hx. rewrite <- Hperm in Hx. apply list_elem_of_lookup_1 in Hx as [i Hi].
    pose proof (lookup_lt_Some _ _ _ Hi). split.
    + apply (sorted_lookup_le sorted Hsorted 0%nat i); [lia|assumption|assumption].
    + apply (sorted_lookup_le sorted Hsorted i (length sorted - 1)%nat);
        [lia|assumption|assumption].
  - apply (sorted_lookup_le sorted Hsorted 0%nat (percentileIndex (length sorted) 95));
      [lia|assumption|assumption].
  - apply (sorted_lookup_le sorted Hsorted (percentileIndex (length sorted) 95)
             (percentileIndex (length sorted) 99)); [lia|assumption|assumption].
  - apply (sorted_lookup_le sorted Hsorted (percentileIndex (length sorted) 99)
             (length sorted - 1)%nat); [lia|assumption|assumption].
  - rewrite <- Hperm. apply (list_elem_of_lookup_2 _ _ _ H95).
  - rewrite <- Hperm. apply (list_elem_of_lookup_2 _ _ _ Hv99).
Qed.

Lemma run_latency calls : forall c,
  (length (latencyHistory c) <= 1000)%nat ->
  (latencyHistory c = [] \/
   exists old, latency c = updateLatencyMetrics (latencyHistory c) old) ->
  (length (latencyHistory (run c calls)) <= 1000)%nat /\
  (latencyHistory (run c calls) = [] \/
   exists old, latency (run c calls) = updateLatencyMetrics (latencyHistory (run c calls)) old).
Proof.
  induction calls as [|[now [ok ms e|hit|]] rest IH]; intros c Hlen Hc; [auto| | |];
    cbn [run fold_left].
  - apply (IH (step c (now, RecordApiCall ok ms e)));
      cbn [step snd fst recordApiCall latencyHistory latency].
    + rewrite lastN_push by exact Hlen. apply lastN_length.
    + right. eexists. reflexivity.
  - apply (IH (step c (now, RecordCacheHit hit))); assumption.
  - apply (IH (step c (now, Reset))); [cbn; lia|left; reflexivity].
Qed.

(** X21: once a call has been recorded (and not reset away), the latency
    summary describes the stored history: [min] is its least and [max] its
    greatest latency (each is a latency of the history, and every latency
    of the history lies between them), the percentiles are latencies of
    the history, never the [|| 0] default of an index out of range, and
    [min <= p95 <= p99 <= max]. *)
Theorem latency_summary_is_ordered (now : Z) (calls : list (Z * call)) :
  let c := run (create now) calls in
  latencyHistory c <> [] ->
  exists least,
    min (latency c) = Some least /\
    least ∈ latencyHistory c /\ max (latency c) ∈ latencyHistory c /\
    (forall x, x ∈ latencyHistory c -> least <= x <= max (latency c)) /\
    least <= p95 (latency c) /\ p95 (latency c) <= p99 (latency c) /\
    p99 (latency c) <= max (latency c) /\
    p95 (latency c) ∈ latencyHistory c /\ p99 (latency c) ∈ latencyHistory c.
Proof.
  intros c Hne. subst c.
  destruct (run_latency calls (create now)) as [Hlen [Hnil|[old Hold]]];
    [cbn; lia|left; reflexivity|contradiction|].
  rewrite Hold. apply summary_ordered; assumption.
Qed.

Lemma latency_summary_is_ordered_witness :
  let c := run (create 0)
             [(1, RecordApiCall true 30 None);
              (2, RecordApiCall false 10 (Some TimeoutError));
              (3, RecordApiCall true 20 None)] in
  exists least,
    min (latency c) = Some least /\ least ∈ latencyHistory c /\
    max (latency c) ∈ latencyHistory c /\ least <= p95 (latency c).
Proof.
  destruct (latency_summary_is_ordered 0
              [(1, RecordApiCall true 30 None);
               (2, RecordApiCall false 10 (Some TimeoutError));
               (3, RecordApiCall true 20 None)])
    as (least & Hmin & Hin & Hmax & _ & Hle & _).
  - vm_compute. discriminate.
  - exists least. repeat split; assumption.
Defined.

End MetricsLatency.

(** ** Chain identifier tables *)

Section ChainTables.
Import Service.

(** X22: the reverse table is not an inverse of [WORMHOLE_CHAIN_IDS].  Going
    from a standard chain id to its Wormhole id and back gives the same id
    for every entry except Ethereum ("1") and Base ("8453"): their Wormhole
    ids 2 and 30 are shared with the Sepolia test networks, which come last
    and win, so that [parseTokens] labels a token of Wormhole chain 2 with
    chain "11155111" and one of chain 30 with "84532".  The order in which
    the entries are enumerated does not matter for this. *)
Theorem chain_id_round_trip :
  (forall standard wormhole,
     WORMHOLE_CHAIN_IDS !! standard = Some wormhole ->
     (CHAIN_ID_TO_STANDARD !! wormhole = Some standard <->
      standard <> "1"%string /\ standard <> "8453"%string)) /\
  WORMHOLE_CHAIN_IDS !! "1"%string = Some 2 /\
  standardChainId 2 "2" = "11155111"%string /\
  WORMHOLE_CHAIN_IDS !! "8453"%string = Some 30 /\
  standardChainId 30 "30" = "84532"%string /\
  fromEntries ((fun e => (snd e, fst e)) <$> WORMHOLE_CHAIN_IDS_literal)
    = CHAIN_ID_TO_STANDARD.
Proof.
  split; [|repeat split; vm_compute; reflexivity].
  intros standard wormhole Hlook.
  apply elem_of_list_to_map_2 in Hlook.
  unfold WORMHOLE_CHAIN_IDS_literal in Hlook.
  repeat (apply elem_of_cons in Hlook as [Heq|Hlook];
          [injection Heq as -> ->; vm_compute;
           split; [intros H; try discriminate H; split; discriminate
                  |intros [H1 H2]; try reflexivity; congruence]|]).
  inversion Hlook.
Qed.

End ChainTables.

(** ** Validation of notionals *)

Section ValidationFacts.
Import Validation.

Lemma validateNotional_valid (notional : NotionalText) :
  valid (validateNotional notional) = true <-> acceptable notional.
Proof.
  unfold validateNotional, acceptable, amountErrors.
  destruct (blank notional); [split; [discriminate|intros [? _]; discriminate]|].
  destruct (parsed notional) as [amount|s]; cbn [Service.BigInt valid].
  - destruct (amount <=? 0) eqn:E1;
      [apply Z.leb_le in E1|apply Z.leb_gt in E1];
      (destruct (amount >? MAX_NOTIONAL) eqn:E2;
        [rewrite Z.gtb_ltb in E2; apply Z.ltb_lt in E2
        |rewrite Z.gtb_ltb in E2; apply Z.ltb_ge in E2]);
      cbn; split; try discriminate;
      try (intros [_ (a & [= <-] & Ha)]; lia).
    intros _. split; [reflexivity|]. exists amount. split; [reflexivity|lia].
  - cbn. split; [discriminate|]. intros [_ (a & Ha & _)]. discriminate.
Qed.

Lemma notionalErrors_length notionals : forall i,
  length (notionalErrors i notionals)
    = length (filter (fun n => valid (validateNotional n) = false) notionals).
Proof.
  induction notionals as [|n rest IH]; intros i; [reflexivity|].
  cbn [notionalErrors]. rewrite length_app, IH, filter_cons.
  destruct (valid (validateNotional n)); case_decide; try congruence; reflexivity.
Qed.

Lemma filter_all_acceptable notionals :
  Forall acceptable notionals ->
  filter (fun n => valid (validateNotional n) = false) notionals = [].
Proof.
  induction 1 as [|n rest Hn Hrest IH]; [reflexivity|].
  rewrite filter_cons. apply validateNotional_valid in Hn.
  case_decide; [congruence|exact IH].
Qed.

Lemma filter_nil_acceptable notionals :
  filter (fun n => valid (validateNotional n) = false) notionals = [] ->
  Forall acceptable notionals.
Proof.
  intros Hnil. apply Forall_forall. intros n Hin.
  apply validateNotional_valid.
  destruct (valid (validateNotional n)) eqn:E; [reflexivity|].
  assert (Hmem : n ∈ filter (fun n => valid (validateNotional n) = false) notionals)
    by (apply list_elem_of_filter; split; assumption).
  rewrite Hnil in Hmem. inversion Hmem.
Qed.

Lemma validateNotionals_all_acceptable notionals :
  valid (validateNotionals notionals) = true -> Forall acceptable notionals.
Proof.
  destruct notionals as [|n0 rest] eqn:Hn; [discriminate|]. rewrite <- Hn.
  assert (Hv : validateNotionals notionals =
               {| valid := (length (notionalErrors 0 notionals) =? 0)%nat;
                  errors := notionalErrors 0 notionals |})
    by (rewrite Hn; reflexivity).
  rewrite Hv. cbn [valid]. rewrite notionalErrors_length, Nat.eqb_eq, length_zero_iff_nil.
  apply filter_nil_acceptable.
Qed.

(** X23: [validateNotionals] accepts a list exactly when it is not empty
    and every notional in it is non-blank text that [BigInt] reads as an
    amount between 1 and 10^24; otherwise it reports one error line per
    rejected notional (or the single "required" line for an empty list). *)
Theorem validateNotionals_accepts_iff (notionals : list NotionalText) :
  (valid (validateNotionals notionals) = true <->
   notionals <> [] /\ Forall acceptable notionals) /\
  (notionals <> [] ->
   length (errors (validateNotionals notionals))
     = length (filter (fun n => valid (validateNotional n) = false) notionals)) /\
  (notionals = [] -> length (errors (validateNotionals notionals)) = 1%nat).
Proof.
  destruct notionals as [|n0 rest] eqn:Hn.
  - split; [|split; [congruence|reflexivity]].
    cbn. split; [discriminate|intros [H _]; congruence].
  - rewrite <- Hn. assert (Hne : notionals <> []) by (rewrite Hn; discriminate).
    assert (Hv : validateNotionals notionals =
                 {| valid := (length (notionalErrors 0 notionals) =? 0)%nat;
                    errors := notionalErrors 0 notionals |})
      by (rewrite Hn; reflexivity).
    rewrite Hv. cbn [valid errors]. rewrite notionalErrors_length.
    split; [|split; [reflexivity|congruence]].
    rewrite Nat.eqb_eq, length_zero_iff_nil. split.
    + intros Hnil. split; [exact Hne|]. apply filter_nil_acceptable. exact Hnil.
    + intros [_ Hall]. apply filter_all_acceptable. exact Hall.
Qed.

Lemma validateNotionals_accepts_iff_witness :
  valid (validateNotionals
           [{| blank := false; parsed := Service.Digits 1000000 |}]) = true /\
  length (errors (validateNotionals
                    [{| blank := false; parsed := Service.Malformed "1.5" |};
                     {| blank := true; parsed := Service.Digits 0 |}])) = 2%nat.
Proof.
  split.
  - apply (validateNotionals_accepts_iff
             [{| blank := false; parsed := Service.Digits 1000000 |}]).
    split; [discriminate|]. repeat constructor. exists 1000000.
    split; [reflexivity|unfold MAX_NOTIONAL; lia].
  - destruct (validateNotionals_accepts_iff
                [{| blank := false; parsed := Service.Malformed "1.5" |};
                 {| blank := true; parsed := Service.Digits 0 |}]) as (_ & H & _).
    rewrite H; [reflexivity|discriminate].
Defined.

(** X24: a list of notionals that passed [validateNotionals] never aborts
    a rate batch: for every network and every list of routes [getRates]
    returns one rate per route and notional, each with a positive input
    amount. *)
Theorem validated_notionals_never_abort_rates
    (notionals : list NotionalText) (retryConfig : Http.RetryConfig)
    (net : Service.Network) (routes : list Service.Route) :
  valid (validateNotionals notionals) = true ->
  exists rates,
    Service.getRates retryConfig net routes (parsed <$> notionals) = Some rates /\
    length rates = (length routes * length notionals)%nat /\
    Forall (fun rate => exists amount,
              Service.amountIn rate = Service.Digits amount /\ 0 < amount) rates.
Proof.
  intros Hvalid. apply validateNotionals_all_acceptable in Hvalid as Hall.
  assert (Hwf : forall item, item ∈ Service.batch routes (parsed <$> notionals) ->
                  exists amount, item.2 = Service.Digits amount /\ 0 < amount).
  { intros item Hin. apply batch_notional in Hin.
    apply list_elem_of_fmap in Hin as (text & -> & Htext).
    rewrite Forall_forall in Hall. destruct (Hall text Htext) as (_ & amount & Ha & Hpos).
    exists amount. split; [exact Ha|lia]. }
  assert (Hsome : is_Some (Service.getRates retryConfig net routes (parsed <$> notionals))).
  { apply mapM_is_Some_2. apply Forall_forall. intros item Hin.
    apply rateEntry_wellFormed. destruct (Hwf item Hin) as (amount & Ha & _).
    exists amount. rewrite Ha. reflexivity. }
  destruct Hsome as [rates Hrates]. exists rates. split; [exact Hrates|].
  pose proof (mapM_Some_1 _ _ _ Hrates) as Hf2. split.
  - rewrite <- (Forall2_length _ _ _ Hf2), batch_length, length_fmap. reflexivity.
  - apply Forall_forall. intros rate Hrate.
    apply list_elem_of_lookup_1 in Hrate as [i Hi].
    destruct (Forall2_lookup_r _ _ _ i _ Hf2 Hi) as (item & Hitem & Hentry).
    destruct (Hwf item (list_elem_of_lookup_2 _ _ _ Hitem)) as (amount & Ha & Hpos).
    exists amount. split; [|exact Hpos].
    destruct item as [route notional]. cbn [snd] in Ha. subst notional.
    unfold Service.rateEntry in Hentry. cbn [fst snd] in Hentry.
    destruct (Service.getSingleRate retryConfig net route (Service.Digits amount))
      as [live|] eqn:Hlive.
    + injection Hentry as <-. unfold Service.getSingleRate in Hlive.
      destruct (match Service.firstQuote _ _ _ _ _ with Some q => Some q | None => _ end)
        as [q|]; [|discriminate].
      cbn in Hlive.
      destruct (default (Some amount) _) as [out|]; [|discriminate].
      cbn in Hlive. injection Hlive as <-. reflexivity.
    + rewrite createFallbackRate_digits in Hentry. injection Hentry as <-. reflexivity.
Qed.

Lemma validated_notionals_never_abort_rates_witness :
  exists rates,
    Service.getRates Service.serviceRetryConfig Service.down [Service.ethereumToPolygon]
      [Service.Digits 1000000] = Some rates /\ length rates = 1%nat.
Proof.
  destruct (validated_notionals_never_abort_rates
              [{| blank := false; parsed := Service.Digits 1000000 |}]
              Service.serviceRetryConfig Service.down [Service.ethereumToPolygon] eq_refl)
    as (rates & Hr & Hl & _).
  exists rates. split; [exact Hr|exact Hl].
Defined.

End ValidationFacts.

Section HttpReports.
Import Http.

Lemma attemptsFrom_reported {B} (cfg : RetryConfig) lim (fetch : Z -> FetchOutcome B)
    remaining : forall attempt lastError,
  reported (attemptsFrom cfg lim fetch remaining attempt lastError) =
    (a ← seqZ attempt
           (Z.of_nat (attemptsMade (attemptsFrom cfg lim fetch remaining attempt lastError)));
     reportOf lim (fetch a)).
Proof.
  induction remaining as [|n IH]; intros attempt lastError; cbn [attemptsFrom];
    [reflexivity|].
  destruct (classify (fetch attempt)); cbn [reported attemptsMade].
  - change (Z.of_nat 1) with 1. rewrite seqZ_cons by lia. cbn. rewrite app_nil_r. reflexivity.
  - rewrite Nat2Z.inj_succ, seqZ_cons by lia. rewrite bind_cons, IH.
    rewrite Z.pred_succ. replace (Z.succ attempt) with (attempt + 1) by lia. reflexivity.
Qed.

(** X25: when a limiter is passed, every response received reports its
    rate-limit headers to it, once and in the order of the attempts; this
    includes the 429 and 5xx responses that are then retried, and a rejected
    [fetch] reports nothing.  Without a limiter nothing is reported. *)
Theorem every_response_reports_its_headers
    {B : Type} (cfg : RetryConfig) (hasLimiter : bool) (fetch : Z -> FetchOutcome B) :
  reported (fetchWithRetry cfg hasLimiter fetch) =
    (a ← seqZ 0 (Z.of_nat (attemptsMade (fetchWithRetry cfg hasLimiter fetch)));
     match fetch a with
     | Responded r =>
         if hasLimiter then match rateLimit r with Some info => [info] | None => [] end
         else []
     | Thrown _ => []
     end) /\
  (hasLimiter = false -> reported (fetchWithRetry cfg hasLimiter fetch) = []).
Proof.
  split; [apply attemptsFrom_reported|].
  intros ->. unfold fetchWithRetry. rewrite attemptsFrom_reported.
  induction (seqZ 0 _) as [|a rest IH]; [reflexivity|].
  rewrite bind_cons, IH. destruct (fetch a); reflexivity.
Qed.

Lemma every_response_reports_its_headers_witness :
  reported (fetchWithRetry defaultRetryConfig false (always 503)) = [].
Proof.
  destruct (every_response_reports_its_headers defaultRetryConfig false (always 503))
    as [_ H].
  apply H. reflexivity.
Defined.

End HttpReports.

(** ** Volumes *)

Section VolumesFacts.
Import Volumes.

Lemma fetchVolumeData_failing (rc : Http.RetryConfig) (net : VolumeNetwork)
    (llama : LlamaNetwork) windows endpoints :
  (forall endpoint, volumeEndpointFails rc net endpoint = true) ->
  fetchVolumeDataFrom rc net llama windows endpoints
    = AsRows (getVolumeFromPublicSources rc llama windows).
Proof.
  intros Hall. induction endpoints as [|endpoint rest IH]; cbn [fetchVolumeDataFrom];
    [reflexivity|].
  specialize (Hall endpoint). unfold volumeEndpointFails in Hall.
  destruct (Http.settled _) as [response|message]; [|exact IH].
  destruct (Http.ok response); [|exact IH].
  destruct (Http.body response); cbn in Hall; try discriminate; exact IH.
Qed.

(** X26: when no volume endpoint gives a document, [getVolumes] on a cache
    miss reports a volume of 0 for every requested window, whatever
    DefiLlama says and in spite of the estimates: the rows built by
    [getVolumeFromPublicSources] come back as an array, and the lookup by
    window name finds nothing in an array.  The zeros are cached, so for the
    next minute they are served again whatever the network does. *)
Theorem volumes_are_zero_when_endpoints_fail
    (rc : Http.RetryConfig) (net : VolumeNetwork) (llama : LlamaNetwork)
    (now doneAt : Z) (windows : list Window)
    (cache : gmap string (Service.entry (list VolumeWindow))) :
  fst (Service.getFromCache now (cacheKey windows) cache) = None ->
  (forall endpoint, volumeEndpointFails rc net endpoint = true) ->
  let zeroRows := (fun w => {| window := w; volumeUsd := zero |}) <$> windows in
  let outcome := getVolumes rc net llama now doneAt windows cache in
  fst outcome = zeroRows /\
  forall (net' : VolumeNetwork) (llama' : LlamaNetwork) (later doneAt' : Z),
    later < doneAt + Service.CACHE_TTL ->
    fst (getVolumes rc net' llama' later doneAt' windows (snd outcome)) = zeroRows.
Proof.
  intros Hmiss Hfail zeroRows outcome. subst zeroRows outcome.
  unfold getVolumes at 1 3.
  destruct (Service.getFromCache now (cacheKey windows) cache) as [[cached|] cache'];
    [discriminate|].
  unfold fetchVolumeData. rewrite fetchVolumeData_failing by exact Hfail.
  cbn [fst snd lookupVolume]. split; [reflexivity|].
  intros net' llama' later doneAt' Hlater. unfold getVolumes.
  rewrite (getFromCache_fresh later (cacheKey windows) _
             {| Service.data := (fun w => {| window := w; volumeUsd := zero |}) <$> windows;
                Service.expires := doneAt + Service.CACHE_TTL |}).
  - reflexivity.
  - unfold Service.setCache. apply lookup_insert_eq.
  - exact Hlater.
Qed.

Lemma volumes_are_zero_when_endpoints_fail_witness :
  fst (getVolumes Service.serviceRetryConfig volumesDown llamaUp 0 1 [W24h; W7d] ∅)
    = [{| window := W24h; volumeUsd := zero |}; {| window := W7d; volumeUsd := zero |}].
Proof.
  destruct (volumes_are_zero_when_endpoints_fail Service.serviceRetryConfig volumesDown
              llamaUp 0 1 [W24h; W7d] ∅) as [H _].
  - reflexivity.
  - intros endpoint. vm_compute. reflexivity.
  - exact H.
Defined.

Lemma valueAt_setAt vols a x w :
  valueAt (setAt vols a x) w = match a, w with
                               | W24h, W24h | W7d, W7d | W30d, W30d => x
                               | _, _ => valueAt vols w
                               end.
Proof. destruct a, w; reflexivity. Qed.

Lemma fill_nonzero windows : forall vols w,
  w ∈ windows \/ isZero (valueAt vols w) = false ->
  isZero (valueAt
            (foldl (fun vols w => if isZero (valueAt vols w)
                                  then setAt vols w (getEstimatedVolume w) else vols)
                   vols windows) w) = false.
Proof.
  induction windows as [|a rest IH]; intros vols w Hw.
  - destruct Hw as [Hin|Hnz]; [inversion Hin|exact Hnz].
  - cbn [foldl]. apply IH.
    destruct (isZero (valueAt vols a)) eqn:Ha.
    + destruct Hw as [Hin|Hnz].
      * apply elem_of_cons in Hin as [->|Hin]; [|left; exact Hin].
        right. rewrite valueAt_setAt. destruct a; reflexivity.
      * right. rewrite valueAt_setAt. destruct a, w; try exact Hnz; reflexivity.
    + destruct Hw as [Hin|Hnz]; [|right; exact Hnz].
      apply elem_of_cons in Hin as [->|Hin]; [right; exact Ha|left; exact Hin].
Qed.

(** X27: [getVolumeFromPublicSources] gives one row per requested window,
    in order, and none of its rows reports a volume of zero: a window that
    no source filled gets the estimate. *)
Theorem public_sources_never_report_zero
    (rc : Http.RetryConfig) (llama : LlamaNetwork) (windows : list Window) :
  window <$> getVolumeFromPublicSources rc llama windows = windows /\
  Forall (fun row => isZero (volumeUsd row) = false)
         (getVolumeFromPublicSources rc llama windows).
Proof.
  unfold getVolumeFromPublicSources. split.
  - rewrite <- list_fmap_compose. apply list_fmap_id.
  - apply Forall_fmap. apply Forall_forall. intros w Hw. cbn [compose volumeUsd].
    apply fill_nonzero. left. exact Hw.
Qed.

End VolumesFacts.

(** ** Liquidity depth when the quote endpoints fail *)

Section LiquidityFacts.
Import Service Liquidity.

Lemma quoteFrom_failing (rc : Http.RetryConfig) (net : AmountNetwork) route amount endpoints :
  (forall endpoint, amountEndpointFails rc net route amount endpoint = true) ->
  quoteFrom rc net route amount endpoints = feeModelQuote amount.
Proof.
  intros Hall. induction endpoints as [|endpoint rest IH]; cbn [quoteFrom]; [reflexivity|].
  specialize (Hall endpoint). unfold amountEndpointFails in Hall.
  destruct (Http.settled _) as [response|message]; [|exact IH].
  destruct (Http.ok response); [|exact IH].
  destruct (Http.body response); cbn in Hall; try discriminate; exact IH.
Qed.

(** On a route with the same decimals on both sides, the fee-model quote
    of an amount of 10000 or more has a slippage of at most 25 bps. *)
Lemma fee_model_slippage (route : Route) (amount : Z) :
  decimals (source route) = decimals (destination route) ->
  10000 <= amount ->
  calculateSlippage route amount (Z.quot (amount * (10000 - 25)) 10000) <= 25.
Proof.
  intros Hdec Ha. unfold calculateSlippage, expectedOut. rewrite Hdec.
  set (p := 10 ^ Z.of_nat (decimals (destination route))).
  assert (Hp : 0 < p) by (apply Z.pow_pos_nonneg; lia).
  rewrite (Z.quot_div_nonneg (amount * p) p) by nia.
  rewrite Z.div_mul by lia.
  replace (amount =? 0) with false by (symmetry; apply Z.eqb_neq; lia).
  rewrite (Z.quot_div_nonneg (amount * (10000 - 25)) 10000) by lia.
  set (out := amount * (10000 - 25) / 10000).
  assert (Hout : amount * 9975 - 9999 <= out * 10000 <= amount * 9975).
  { unfold out. change (10000 - 25) with 9975.
    pose proof (Z.div_mod (amount * 9975) 10000 ltac:(lia)).
    pose proof (Z.mod_pos_bound (amount * 9975) 10000 ltac:(lia)). lia. }
  rewrite Z.quot_div_nonneg by lia.
  rewrite Z.abs_eq by (apply Z.div_pos; lia).
  apply Z.lt_succ_r. apply Z.div_lt_upper_bound; lia.
Qed.

Lemma search_feasible_above (quote : Z -> option Z) (route : Route) budget bound iterations :
  (forall mid, bound <= mid ->
     exists out, quote mid = Some out /\ calculateSlippage route mid out <= budget) ->
  forall low high,
    0 <= low <= high -> bound <= Z.quot (low + high) 2 ->
    search quote route budget iterations low high = climb iterations low high.
Proof.
  intros Hfeasible.
  induction iterations as [|n IH]; intros low high Hlh Hb; cbn [search climb];
    [reflexivity|].
  pose proof (midpoint_between low high Hlh) as Hmid.
  set (mid := Z.quot (low + high) 2) in *.
  destruct ((mid =? low) || (mid =? high)); [reflexivity|].
  destruct (Hfeasible mid Hb) as (out & Hq & Hs). rewrite Hq.
  apply Z.leb_le in Hs. rewrite Hs.
  apply IH; [lia|]. pose proof (midpoint_between mid high ltac:(lia)). lia.
Qed.

(** X28: when every quote endpoint fails for every probed amount, the
    probes are priced by the 25 bps fee model; on a route whose two assets
    have the same decimals (at most 22, so that [10 ** decimals] is an
    exact number) every probe then shows 25 bps or less, so for
    every budget of 25 bps or more the search climbs to
    9999999701976776123: [getLiquidityDepth] reports this same amount for
    the 50 bps and for the 100 bps threshold. *)
Theorem liquidity_depth_without_quotes
    (rc : Http.RetryConfig) (net : AmountNetwork) (route : Route) (slippageBps : Z) :
  (forall amount endpoint, amountEndpointFails rc net route amount endpoint = true) ->
  decimals (source route) = decimals (destination route) ->
  (decimals (source route) <= 22)%nat ->
  25 <= slippageBps ->
  findMaxAmountForSlippage (getQuoteForAmount rc net route) route slippageBps
    = 9999999701976776123 /\
  getLiquidityDepth rc net [route] =
    [{| depthRoute := route;
        thresholds := [(9999999701976776123, 50); (9999999701976776123, 100)] |}].
Proof.
  intros Hfail Hdec _ Hb.
  assert (Hsearch : forall budget, 25 <= budget ->
            findMaxAmountForSlippage (getQuoteForAmount rc net route) route budget
              = 9999999701976776123).
  { intros budget Hbudget. unfold findMaxAmountForSlippage.
    rewrite (search_feasible_above _ route budget 10000).
    - vm_compute. reflexivity.
    - intros mid Hmid. unfold getQuoteForAmount.
      rewrite quoteFrom_failing by (apply Hfail).
      eexists. split; [reflexivity|].
      pose proof (fee_model_slippage route mid Hdec Hmid). lia.
    - unfold UPPER_BOUND. lia.
    - vm_compute. discriminate. }
  split; [apply Hsearch; exact Hb|].
  unfold getLiquidityDepth. cbn [fmap list_fmap].
  rewrite !Hsearch by lia. reflexivity.
Qed.

Lemma liquidity_depth_without_quotes_witness :
  getLiquidityDepth serviceRetryConfig quotesDown [ethereumToPolygon] =
    [{| depthRoute := ethereumToPolygon;
        thresholds := [(9999999701976776123, 50); (9999999701976776123, 100)] |}].
Proof.
  destruct (liquidity_depth_without_quotes serviceRetryConfig quotesDown
              ethereumToPolygon 50) as [_ H].
  - intros amount endpoint. vm_compute. reflexivity.
  - reflexivity.
  - vm_compute. lia.
  - lia.
  - exact H.
Defined.

End LiquidityFacts.
